(** * SOAP: shared particle mesh and snapshot dataset names

    A shallow embedding of [shared_mesh.py] (class [SharedMesh]) and of
    [snapshot_datasets.py] (class [SnapshotDatasets]), with the properties
    of the spatial index and of the dataset name table proved over it.

    Conventions of the embedding.
    - [np.float64] coordinates are rationals ([Q]).  The bounding box and
      the cell coordinates (lines 24-39, 94-97 and 133-136) are computed
      exactly.
      The radius test of [query_radius] compares rounded numbers, so its
      arithmetic (lines 124-125 and 148-149) is that of IEEE 754 binary64:
      every operand is the binary64 number nearest to its rational and
      every operation rounds to nearest, ties to even.
    - A quotient by a zero cell size (IEEE infinity or NaN) has no rational
      value, and its conversion to [np.int32] is not defined by NumPy; such
      a computation is [Undefined] here.
    - [np.int32] array arithmetic wraps around ([wrap32]).
    - Python exceptions are [Raise e]; normal completion is [Ok v].
    - The MPI communicator is the list of the local parts of a distributed
      array, rank 0 first. *)

From Stdlib Require Import String Ascii.
From Stdlib Require Import ZArith QArith Qround Qminmax Lqa SpecFloat.
From Stdlib Require Import List Permutation Sorted Mergesort Orders.
From Stdlib Require Import Bool Lia.
Import ListNotations.

Set Implicit Arguments.

(** ** Outcomes of Python code *)

Inductive exn : Type :=
| ValueError
| IndexError
| AttributeError
| KeyError (key : string).

Inductive outcome (A : Type) : Type :=
| Ok (a : A)
| Raise (e : exn)
| Undefined.

Arguments Ok {A} a.
Arguments Raise {A} e.
Arguments Undefined {A}.

Definition bind {A B : Type} (c : outcome A) (k : A -> outcome B) : outcome B :=
  match c with
  | Ok a => k a
  | Raise e => Raise e
  | Undefined => Undefined
  end.

Declare Scope outcome_scope.
Delimit Scope outcome_scope with outcome.
Notation "x <- c ;; k" := (bind c (fun x => k))
  (at level 61, c at next level, right associativity) : outcome_scope.
Notation "' p <- c ;; k" := (bind c (fun x => let 'p := x in k))
  (at level 61, p pattern, c at next level, right associativity) : outcome_scope.
Local Open Scope outcome_scope.

Fixpoint mapM {A B : Type} (f : A -> outcome B) (l : list A) : outcome (list B) :=
  match l with
  | [] => Ok []
  | a :: l' => b <- f a ;; bs <- mapM f l' ;; Ok (b :: bs)
  end.

(** ** NumPy array primitives used by the mesh *)

Module Np.

Local Open Scope Z_scope.

(** [range(a, b)] *)
Definition py_range (a b : Z) : list Z :=
  map (fun n => a + Z.of_nat n) (seq 0 (Z.to_nat (b - a))).

(** [a[i]] on a one-dimensional array: negative indices count from the
    end, anything else out of bounds raises [IndexError]. *)
Definition getitem {A : Type} (a : list A) (i : Z) : outcome A :=
  let n := Z.of_nat (length a) in
  let j := if i <? 0 then i + n else i in
  if (0 <=? j) && (j <? n)
  then match nth_error a (Z.to_nat j) with
       | Some v => Ok v
       | None => Raise IndexError
       end
  else Raise IndexError.

(** [a[start:stop]] with Python's normalisation of the bounds. *)
Definition slice_bound (n i : Z) : Z :=
  if i <? 0 then Z.max (i + n) 0 else Z.min i n.

Definition slice {A : Type} (a : list A) (start stop : Z) : list A :=
  let n := Z.of_nat (length a) in
  let lo := slice_bound n start in
  let hi := slice_bound n stop in
  firstn (Z.to_nat (hi - lo)) (skipn (Z.to_nat lo) a).

(** [np.clip(a, lo, hi)] is [minimum(maximum(a, lo), hi)]. *)
Definition clip (a lo hi : Z) : Z := Z.min (Z.max a lo) hi.

(** Two's complement reduction of an integer to 32 bits. *)
Definition wrap32 (z : Z) : Z := (z + 2 ^ 31) mod 2 ^ 32 - 2 ^ 31.

Definition int32_min : Z := - 2 ^ 31.
Definition int32_max : Z := 2 ^ 31 - 1.

(** [np.floor(a / b).astype(np.int32)] on one component.  The conversion
    is defined only for a finite quotient whose floor fits 32 bits. *)
Definition floor_div_int32 (a b : Q) : outcome Z :=
  if Qeq_bool b 0 then Undefined
  else
    let z := Qfloor (a / b) in
    if (int32_min <=? z) && (z <=? int32_max) then Ok z else Undefined.

(** Number of occurrences of [c] in [xs]. *)
Definition count (c : Z) (xs : list Z) : Z :=
  Z.of_nat (length (filter (Z.eqb c) xs)).

(** [np.bincount(xs, minlength=m)]: negative input or negative [m] raises
    [ValueError]; the result has [max(m, max(xs)+1)] bins. *)
Definition bincount (xs : list Z) (minlength : Z) : outcome (list Z) :=
  if minlength <? 0 then Raise ValueError
  else if existsb (fun x => x <? 0) xs then Raise ValueError
  else
    let nbins := Z.max minlength (fold_right Z.max (-1) xs + 1) in
    Ok (map (fun c => count c xs) (py_range 0 nbins)).

(** [np.cumsum(xs)] *)
Fixpoint cumsum_from (acc : Z) (xs : list Z) : list Z :=
  match xs with
  | [] => []
  | x :: xs' => (acc + x) :: cumsum_from (acc + x) xs'
  end.

Definition cumsum (xs : list Z) : list Z := cumsum_from 0 xs.

End Np.

(** ** Three-component vectors *)

Record vec3 (A : Type) : Type := V3 { v0 : A; v1 : A; v2 : A }.

Arguments V3 {A} v0 v1 v2.

Definition vmap {A B : Type} (f : A -> B) (v : vec3 A) : vec3 B :=
  V3 (f (v0 v)) (f (v1 v)) (f (v2 v)).

Definition vzip {A B C : Type} (f : A -> B -> C) (u : vec3 A) (v : vec3 B) : vec3 C :=
  V3 (f (v0 u) (v0 v)) (f (v1 u) (v1 v)) (f (v2 u) (v2 v)).

Definition vseq {A : Type} (v : vec3 (outcome A)) : outcome (vec3 A) :=
  a <- v0 v ;; b <- v1 v ;; c <- v2 v ;; Ok (V3 a b c).

Inductive axis : Type := AxX | AxY | AxZ.

Definition vget {A : Type} (d : axis) (v : vec3 A) : A :=
  match d with AxX => v0 v | AxY => v1 v | AxZ => v2 v end.

Definition point : Type := vec3 Q.

(** ** binary64 arithmetic

    The numbers and the operations of IEEE 754 binary64 (53 bits of
    precision, round to nearest, ties to even), as the standard library
    specifies them on [spec_float]. *)

Module Binary64.

Local Open Scope Z_scope.

Definition prec : Z := 53.
Definition emax : Z := 1024.

Definition add : spec_float -> spec_float -> spec_float := SFadd prec emax.
Definition sub : spec_float -> spec_float -> spec_float := SFsub prec emax.
Definition mul : spec_float -> spec_float -> spec_float := SFmul prec emax.

(** [a <= b], which is false when one side is a NaN. *)
Definition leb : spec_float -> spec_float -> bool := SFleb.

(** The binary64 number nearest to a rational: the quotient of the
    numerator by the denominator is carried to more than [prec] bits and
    rounded once, the remainder of the division telling on which side of
    the half-way point the rational lies.  A rational that is a binary64
    number is mapped to itself. *)
Definition of_Q (q : Q) : spec_float :=
  let n := Z.abs (Qnum q) in
  let d := Z.pos (Qden q) in
  if n =? 0 then S754_zero false
  else
    let s := Z.max 0 (Z.log2 d + prec + 1 - Z.log2 n) in
    let '(m, r) := Z.div_eucl (n * 2 ^ s) d in
    binary_round_aux prec emax (Qnum q <? 0) m (- s) (new_location d r).

(** The rational value of a finite number; an infinity or a NaN has none. *)
Definition to_Q (f : spec_float) : option Q :=
  match f with
  | S754_zero _ => Some 0%Q
  | S754_finite s m e =>
      let v := (inject_Z (Z.pos m) * 2 ^ e)%Q in
      Some (Qred (if s then - v else v)%Q)
  | S754_infinity _ | S754_nan => None
  end.

End Binary64.

(** ** Collaborators of the mesh *)

(** Modelled from the spec: the shared array primitive of [shared_array.py]
    (the class [SharedArray] is not part of the files embedded here).  An
    array is held as the local parts of the processes in rank order;
    [full] is the global read view, the local parts one after the other. *)
Record SharedArray (A : Type) : Type := { parts : list (list A) }.

Definition full {A : Type} (a : SharedArray A) : list A := concat (parts a).

(** [virgo.mpi.parallel_sort.parallel_sort(arr, comm, return_index=True)],
    an external library: the returned distributed array holds, for each
    place of the globally sorted order, the global index of the element of
    the input that belongs there.  How equal keys are ordered is left to
    the library. *)
Class ParallelSort : Type := {
  parallel_sort : list (list Z) -> list (list nat);
  parallel_sort_perm : forall arr,
    Permutation (concat (parallel_sort arr)) (seq 0 (length (concat arr)));
  parallel_sort_sorted : forall arr,
    Sorted Z.le (map (fun i => nth i (concat arr) 0%Z) (concat (parallel_sort arr)))
}.

(** [comm.Allreduce(send, recv, op)]: every process contributes one value. *)
Definition all_reduce {A : Type} (op : A -> A -> A) (send : list A) : outcome A :=
  match send with
  | [] => Undefined
  | x :: xs => Ok (fold_left op xs x)
  end.

Definition vec_add (a b : list Z) : list Z :=
  map (fun ab => (fst ab + snd ab)%Z) (combine a b).

(** [comm.Reduce(send, recv, op=MPI.SUM, root=0)] on integer arrays, which
    must have the length of the receive buffer of rank 0. *)
Definition reduce_sum (send : list (list Z)) : outcome (list Z) :=
  match send with
  | [] => Undefined
  | c0 :: cs =>
      if forallb (fun c => Nat.eqb (length c) (length c0)) cs
      then Ok (fold_left vec_add cs c0)
      else Undefined
  end.

(** ** The class [SharedMesh] *)

Module SharedMesh.

Import Np.

(** The attributes of a mesh; the three shared arrays are kept by their
    global view [.full]. *)
Record t : Type := {
  pos_min : point;
  pos_max : point;
  resolution : Z;
  cell_size : vec3 Q;
  cell_count : list Z;
  cell_offset : list Z;
  sort_idx : list nat
}.

(** [np.amin(a, axis=0)] and [np.amax(a, axis=0)] on an array of points:
    a reduction of an empty array has no identity. *)
Definition amin (a : list point) : outcome point :=
  match a with
  | [] => Raise ValueError
  | p :: a' => Ok (fold_left (vzip Qmin) a' p)
  end.

Definition amax (a : list point) : outcome point :=
  match a with
  | [] => Raise ValueError
  | p :: a' => Ok (fold_left (vzip Qmax) a' p)
  end.

(** Lines 37-38 and 94-97: the clipped cell coordinates of a position. *)
Definition cell_coord (pos_min cell_size : vec3 Q) (resolution : Z) (p : point)
  : outcome (vec3 Z) :=
  raw <- vseq (vzip floor_div_int32 (vzip Qminus p pos_min) cell_size) ;;
  Ok (vmap (fun c => clip c 0 (resolution - 1)) raw).

(** Line 39, on [np.int32] arrays. *)
Definition linear_int32 (resolution : Z) (c : vec3 Z) : Z :=
  wrap32 (wrap32 (v0 c + wrap32 (resolution * v1 c))
          + wrap32 (resolution ^ 2 * v2 c)).

Definition local_cell_idx (pos_min cell_size : vec3 Q) (resolution : Z)
  (local : list point) : outcome (list Z) :=
  mapM (fun p => c <- cell_coord pos_min cell_size resolution p ;;
                 Ok (linear_int32 resolution c)) local.

(** Lines 58-62: the offsets written by rank 0. *)
Definition offsets (cell_count : list Z) : outcome (list Z) :=
  match cell_count with
  | [] => Raise IndexError
  | _ :: _ =>
      Ok (0%Z :: (if (1 <? length cell_count)%nat
                  then cumsum (removelast cell_count)
                  else []))
  end.

(** [SharedMesh.__init__(comm, pos, resolution)].  Every process runs
    lines 24-25 on its local part; rank 0 alone holds the reduced
    histogram and writes the offsets.  The cell size is the exact quotient
    of the extent by the resolution; a resolution of zero leaves it
    without a rational value, which [floor_div_int32] reports at the
    first particle, as it does for an axis of zero extent. *)
Definition init {PS : ParallelSort} (pos : SharedArray point) (resolution : Z)
  : outcome t :=
  pos_min_local <- mapM amin (parts pos) ;;
  pos_max_local <- mapM amax (parts pos) ;;
  pos_min <- all_reduce (vzip Qmin) pos_min_local ;;
  pos_max <- all_reduce (vzip Qmax) pos_max_local ;;
  let nr_cells := (resolution ^ 3)%Z in
  let cell_size := vmap (fun e => e / inject_Z resolution) (vzip Qminus pos_max pos_min) in
  cell_idx <- mapM (local_cell_idx pos_min cell_size resolution) (parts pos) ;;
  local_count <- mapM (fun idx => bincount idx nr_cells) cell_idx ;;
  global_count <- reduce_sum local_count ;;
  if negb (Z.of_nat (length global_count) =? nr_cells)%Z then Raise ValueError else
  cell_offset <- offsets global_count ;;
  let sort_idx_local := parallel_sort cell_idx in
  Ok {| pos_min := pos_min;
        pos_max := pos_max;
        resolution := resolution;
        cell_size := cell_size;
        cell_count := global_count;
        cell_offset := cell_offset;
        sort_idx := concat sort_idx_local |}.

(** Lines 101-103: the cell coordinates visited by the three loops, in
    the order of the loops. *)
Definition cells_in_range (lo hi : vec3 Z) : list (vec3 Z) :=
  flat_map (fun k =>
    flat_map (fun j =>
      map (fun i => V3 i j k) (py_range (v0 lo) (v0 hi + 1)))
      (py_range (v1 lo) (v1 hi + 1)))
    (py_range (v2 lo) (v2 hi + 1)).

(** Line 104, on Python integers. *)
Definition cell_nr (resolution : Z) (c : vec3 Z) : Z :=
  (v0 c + resolution * v1 c + resolution ^ 2 * v2 c)%Z.

(** Lines 104-108: what one iteration appends to [idx]. *)
Definition visit_cell (m : t) (c : vec3 Z) : outcome (list (list nat)) :=
  let nr := cell_nr (resolution m) c in
  start <- getitem (cell_offset m) nr ;;
  count <- getitem (cell_count m) nr ;;
  if (0 <? count)%Z
  then Ok [slice (sort_idx m) start (start + count)]
  else Ok [].

(** [SharedMesh.query(pos_min, pos_max)]; the arguments are plain vectors
    (a wrapped quantity is replaced by its [value] first). *)
Definition query (m : t) (qmin qmax : point) : outcome (list nat) :=
  cell_min_idx <- cell_coord (pos_min m) (cell_size m) (resolution m) qmin ;;
  cell_max_idx <- cell_coord (pos_min m) (cell_size m) (resolution m) qmax ;;
  idx <- mapM (visit_cell m) (cells_in_range cell_min_idx cell_max_idx) ;;
  Ok (concat (concat idx)).

(** Line 148, [np.sum((p - centre)**2)] for one row, in binary64: the
    three differences, their squares, and the sum of the squares from the
    first to the last. *)
Definition dist2 (p centre : point) : spec_float :=
  let d := vzip (fun a b => Binary64.sub (Binary64.of_Q a) (Binary64.of_Q b)) p centre in
  let s := vmap (fun x => Binary64.mul x x) d in
  Binary64.add (Binary64.add (v0 s) (v1 s)) (v2 s).

(** [a[mask]] for a boolean mask. *)
Definition compress {A : Type} (a : list A) (mask : list bool) : list A :=
  map fst (filter snd (combine a mask)).

(** Lines 143-151: what one iteration of [query_radius] appends.  Line
    149 compares two binary64 numbers, [r2] and the product
    [radius*radius]. *)
Definition visit_cell_radius (m : t) (centre : point) (radius : Q)
  (pos_full : list point) (c : vec3 Z) : outcome (list (list nat)) :=
  let nr := cell_nr (resolution m) c in
  start <- getitem (cell_offset m) nr ;;
  count <- getitem (cell_count m) nr ;;
  if (0 <? count)%Z
  then
    let idx_in_cell := slice (sort_idx m) start (start + count) in
    r2 <- mapM (fun i => p <- getitem pos_full (Z.of_nat i) ;; Ok (dist2 p centre))
               idx_in_cell ;;
    let keep := map (fun r => Binary64.leb r (Binary64.mul (Binary64.of_Q radius)
                                                           (Binary64.of_Q radius))) r2 in
    if (0 <? length (filter id keep))%nat
    then Ok [compress idx_in_cell keep]
    else Ok []
  else Ok [].

(** Lines 124-125: [centre - radius] or [centre + radius], each component
    computed in binary64.  A component that is an infinity or a NaN has no
    rational value; the cell coordinate that lines 133-136 take from it is
    the conversion of an infinity or a NaN to [np.int32]. *)
Definition corner (op : spec_float -> spec_float -> spec_float)
  (centre : point) (radius : Q) : outcome point :=
  vseq (vmap (fun c => match Binary64.to_Q (op (Binary64.of_Q c) (Binary64.of_Q radius)) with
                       | Some q => Ok q
                       | None => Undefined
                       end) centre).

(** [SharedMesh.query_radius(centre, radius, pos)] *)
Definition query_radius (m : t) (centre : point) (radius : Q)
  (pos : SharedArray point) : outcome (list nat) :=
  qmin <- corner Binary64.sub centre radius ;;
  qmax <- corner Binary64.add centre radius ;;
  cell_min_idx <- cell_coord (pos_min m) (cell_size m) (resolution m) qmin ;;
  cell_max_idx <- cell_coord (pos_min m) (cell_size m) (resolution m) qmax ;;
  idx <- mapM (visit_cell_radius m centre radius (full pos))
              (cells_in_range cell_min_idx cell_max_idx) ;;
  Ok (concat (concat idx)).

End SharedMesh.

(** ** A sorting index by merge sort

    One implementation of the parallel sort: the keys are paired with
    their global index and merge-sorted on the key; the result is dealt
    back to the processes in the sizes of their inputs. *)

Module KeyOrder <: TotalLeBool.

Definition t : Type := (Z * nat)%type.

Definition leb (a b : t) : bool := (fst a <=? fst b)%Z.

Lemma leb_total : forall a b, leb a b = true \/ leb b a = true.
Proof. intros a b. unfold leb. lia. Qed.

End KeyOrder.

Module KeySort := Sort KeyOrder.

Fixpoint deal {A : Type} (sizes : list nat) (l : list A) : list (list A) :=
  match sizes with
  | [] => []
  | n :: sizes' => firstn n l :: deal sizes' (skipn n l)
  end.

Definition merge_argsort (arr : list (list Z)) : list (list nat) :=
  let keys := concat arr in
  deal (map (@length Z) arr)
       (map snd (KeySort.sort (combine keys (seq 0 (length keys))))).

(** ** Python dictionaries

    A [dict] keeps its keys in insertion order; assigning to a key that is
    present replaces the value where it stands. *)

Module Dict.

Definition dict (V : Type) : Type := list (string * V).

Definition empty {V : Type} : dict V := [].

Fixpoint get {V : Type} (k : string) (d : dict V) : option V :=
  match d with
  | [] => None
  | (k', v) :: d' => if String.eqb k k' then Some v else get k d'
  end.

Definition mem {V : Type} (k : string) (d : dict V) : bool :=
  match get k d with Some _ => true | None => false end.

Fixpoint set {V : Type} (k : string) (v : V) (d : dict V) : dict V :=
  match d with
  | [] => [(k, v)]
  | (k', v') :: d' =>
      if String.eqb k k' then (k, v) :: d' else (k', v') :: set k v d'
  end.

Definition keys {V : Type} (d : dict V) : list string := map fst d.

(** [d[k]] *)
Definition getitem {V : Type} (d : dict V) (k : string) : outcome V :=
  match get k d with
  | Some v => Ok v
  | None => Raise (KeyError k)
  end.

End Dict.

(** ** The class [SnapshotDatasets] *)

Module SnapshotDatasets.

Import Dict.

Local Open Scope string_scope.

(** The attributes of the object.  [dataset_map] exists only once
    [setup_aliases] has been entered. *)
Record t : Type := {
  datasets_in_file : dict (list string);
  named_columns : dict (dict nat);
  dataset_map : option (dict (string * string))
}.

(** What [__init__] reads of the snapshot file: the members of each group
    at the root, and the rows of [SubgridScheme/NamedColumns] if there. *)
Record file_handle : Type := {
  file_groups : dict (list string);
  file_named_columns : option (dict (list string))
}.

(** [enumerate(column_names)] written into a fresh dictionary. *)
Fixpoint column_indices (i : nat) (column_names : list string) (d : dict nat) : dict nat :=
  match column_names with
  | [] => d
  | colname :: rest => column_indices (S i) rest (set colname i d)
  end.

(** [SnapshotDatasets.__init__(file_handle)] *)
Definition init (f : file_handle) : outcome t :=
  let datasets :=
    fold_left (fun acc g =>
                 if String.prefix "PartType" (fst g)
                 then set (fst g) (fold_left (fun l dset => (l ++ [dset])%list) (snd g) []) acc
                 else acc)
              (file_groups f) empty in
  match file_named_columns f with
  | None => Raise (KeyError "SubgridScheme")
  | Some cols =>
      Ok {| datasets_in_file := datasets;
            named_columns :=
              fold_left (fun acc nc => set (fst nc) (column_indices 0 (snd nc) empty) acc)
                        cols empty;
            dataset_map := None |}
  end.

(** [s.split(sep)] for a separator of one character. *)
Fixpoint split_on (sep : ascii) (s : string) : list string :=
  match s with
  | EmptyString => [EmptyString]
  | String c s' =>
      if Ascii.eqb c sep then EmptyString :: split_on sep s'
      else match split_on sep s' with
           | [] => [String c EmptyString]
           | w :: ws => String c w :: ws
           end
  end.

(** [a, b = parts] *)
Definition unpack2 (l : list string) : outcome (string * string) :=
  match l with
  | [a; b] => Ok (a, b)
  | _ => Raise ValueError
  end.

(** [f"{ptype}/{dset}"] *)
Definition snap_name (ptype dset : string) : string := ptype ++ "/" ++ dset.

(** Lines 22-25: the names of the datasets of the file. *)
Definition file_names (datasets : dict (list string)) : dict (string * string) :=
  fold_left (fun dmap ptype =>
               match get ptype datasets with
               | Some dsets =>
                   fold_left (fun dmap' dset => set (snap_name ptype dset) (ptype, dset) dmap')
                             (dsets ++ ["GroupNr_all"; "GroupNr_bound"])%list dmap
               | None => dmap
               end)
            (keys datasets) empty.

(** Lines 27-31: one turn of the loop over the aliases, on the two
    dictionaries it updates. *)
Definition alias_step (aliases : dict string)
  (st : dict (string * string) * dict (dict nat)) (alias : string)
  : dict (string * string) * dict (dict nat) * outcome unit :=
  let '(dmap, cols) := st in
  match unpack2 (split_on "/" alias) with
  | Ok (SOAP_ptype, SOAP_dset) =>
      match Dict.getitem aliases alias with
      | Ok target =>
          match unpack2 (split_on "/" target) with
          | Ok (snap_ptype, snap_dset) =>
              let dmap' := set alias (snap_ptype, snap_dset) dmap in
              let cols' :=
                match get snap_dset cols with
                | Some c => if mem SOAP_dset cols then cols else set SOAP_dset c cols
                | None => cols
                end in
              (dmap', cols', Ok tt)
          | Raise e => (dmap, cols, Raise e)
          | Undefined => (dmap, cols, Undefined)
          end
      | Raise e => (dmap, cols, Raise e)
      | Undefined => (dmap, cols, Undefined)
      end
  | Raise e => (dmap, cols, Raise e)
  | Undefined => (dmap, cols, Undefined)
  end.

Fixpoint alias_loop (aliases : dict string)
  (st : dict (string * string) * dict (dict nat)) (todo : list string)
  : dict (string * string) * dict (dict nat) * outcome unit :=
  match todo with
  | [] => (st, Ok tt)
  | alias :: todo' =>
      match alias_step aliases st alias with
      | (st', Ok _) => alias_loop aliases st' todo'
      | (st', r) => (st', r)
      end
  end.

(** [SnapshotDatasets.setup_aliases(aliases)]: the object afterwards, and
    how the call ended. *)
Definition setup_aliases (self : t) (aliases : dict string) : t * outcome unit :=
  let dmap := file_names (datasets_in_file self) in
  let '(dmap', cols', r) := alias_loop aliases (dmap, named_columns self) (keys aliases) in
  ({| datasets_in_file := datasets_in_file self;
      named_columns := cols';
      dataset_map := Some dmap' |}, r).

Definition quote : string := String (ascii_of_nat 34) EmptyString.

(** [SnapshotDatasets.get_dataset(name, data_dict)]: the object afterwards,
    the lines printed, and the value returned or the exception raised. *)
Definition get_dataset {A : Type} (self : t) (name : string) (data_dict : dict (dict A))
  : t * list string * outcome A :=
  match dataset_map self with
  | None => (self, [], Raise AttributeError)
  | Some dmap =>
      match Dict.getitem dmap name with
      | Ok (ptype, dset) =>
          (self, [], (group <- Dict.getitem data_dict ptype ;; Dict.getitem group dset))
      | Raise e =>
          (self,
           ("Dataset " ++ quote ++ name ++ quote ++ " not found!")
             :: "Available datasets:"
             :: map (fun key => "  " ++ key) (keys dmap),
           Raise e)
      | Undefined => (self, [], Undefined)
      end
  end.

(** Whether the character [c] occurs in [s]. *)
Fixpoint has_char (c : ascii) (s : string) : bool :=
  match s with
  | EmptyString => false
  | String c' s' => Ascii.eqb c c' || has_char c s'
  end.

(** Number of occurrences of the character [c] in [s]. *)
Fixpoint count_char (c : ascii) (s : string) : nat :=
  match s with
  | EmptyString => 0
  | String c' s' => (if Ascii.eqb c c' then 1 else 0) + count_char c s'
  end.

(** A two-dimensional array: the length of its second axis and its rows. *)
Record array2 (V : Type) : Type := { ncols : nat; rows : list (list V) }.

(** [a[:, j]] for a column index [j] that is not negative. *)
Definition column {V : Type} (a : array2 V) (j : nat) : outcome (list V) :=
  if (j <? ncols a)%nat
  then mapM (fun row => match nth_error row j with
                        | Some v => Ok v
                        | None => Raise IndexError
                        end) (rows a)
  else Raise IndexError.

(** [SnapshotDatasets.get_column_index(dset, column_name)] *)
Definition get_column_index (self : t) (dset column_name : string) : outcome nat :=
  (cols <- Dict.getitem (named_columns self) dset ;;
   Dict.getitem cols column_name)%outcome.

(** [SnapshotDatasets.get_dataset_column(name, column_name, data_dict)];
    it prints nothing and leaves the object as it is. *)
Definition get_dataset_column {V : Type} (self : t) (name column_name : string)
  (data_dict : dict (dict (array2 V))) : outcome (list V) :=
  match dataset_map self with
  | None => Raise AttributeError
  | Some dmap =>
      (pd <- Dict.getitem dmap name ;;
       cols <- Dict.getitem (named_columns self) (snd pd) ;;
       column_index <- Dict.getitem cols column_name ;;
       group <- Dict.getitem data_dict (fst pd) ;;
       arr <- Dict.getitem group (snd pd) ;;
       column arr column_index)%outcome
  end.

End SnapshotDatasets.

(** ** Vocabulary of the statements *)

(** Number of elements of [xs] below [c]. *)
Definition count_lt (c : Z) (xs : list Z) : Z :=
  Z.of_nat (length (filter (fun x => x <? c)%Z xs)).

(** Lines 37-39 for one position, with the geometry of a built mesh: the
    cell index that construction computes for a particle at [p]. *)
Definition particle_cell (m : SharedMesh.t) (p : point) : outcome Z :=
  c <- SharedMesh.cell_coord (SharedMesh.pos_min m) (SharedMesh.cell_size m)
                             (SharedMesh.resolution m) p ;;
  Ok (SharedMesh.linear_int32 (SharedMesh.resolution m) c).

(** The cell coordinates computed for a position by a mesh. *)
Definition mesh_coord (m : SharedMesh.t) (p : point) : outcome (vec3 Z) :=
  SharedMesh.cell_coord (SharedMesh.pos_min m) (SharedMesh.cell_size m)
                        (SharedMesh.resolution m) p.


(** [lo <= c <= hi] on every axis. *)
Definition between (lo hi c : vec3 Z) : Prop :=
  forall d : axis, (vget d lo <= vget d c <= vget d hi)%Z.

(** Whether the two corners of lines 124-125 are [qmin] and [qmax]. *)
Definition corners (centre : point) (radius : Q) (qmin qmax : point) : Prop :=
  SharedMesh.corner Binary64.sub centre radius = Ok qmin /\
  SharedMesh.corner Binary64.add centre radius = Ok qmax.

(** The test of lines 148-149 for a particle at [p]: the binary64 sum of
    squares of line 148 is at most the binary64 product [radius*radius]. *)
Definition kept (centre : point) (radius : Q) (p : point) : bool :=
  Binary64.leb (SharedMesh.dist2 p centre)
               (Binary64.mul (Binary64.of_Q radius) (Binary64.of_Q radius)).



(** What construction establishes, for the cell indices [keys] of the
    particles in global order. *)
Record built_from (pos : SharedArray point) (m : SharedMesh.t) (keys : list Z) : Prop := {
  bf_resolution : (1 <= SharedMesh.resolution m)%Z;
  bf_size : forall d : axis, 0 < vget d (SharedMesh.cell_size m);
  bf_box : forall p, In p (full pos) -> forall d : axis,
      vget d (SharedMesh.pos_min m) <= vget d p /\
      vget d p <= vget d (SharedMesh.pos_max m);
  bf_extent : forall d : axis,
      vget d (SharedMesh.cell_size m) * inject_Z (SharedMesh.resolution m)
      == vget d (SharedMesh.pos_max m) - vget d (SharedMesh.pos_min m);
  bf_keys : Forall2 (fun p k => particle_cell m p = Ok k) (full pos) keys;
  bf_range : Forall (fun k => 0 <= k < SharedMesh.resolution m ^ 3)%Z keys;
  bf_count : SharedMesh.cell_count m
             = map (fun c => Np.count c keys) (Np.py_range 0 (SharedMesh.resolution m ^ 3));
  bf_offset : SharedMesh.cell_offset m
              = map (fun c => count_lt c keys) (Np.py_range 0 (SharedMesh.resolution m ^ 3));
  bf_perm : Permutation (SharedMesh.sort_idx m) (seq 0 (length keys));
  bf_sorted : Sorted Z.le (map (fun i => nth i keys 0%Z) (SharedMesh.sort_idx m))
}.

(** ** Scenarios *)

Definition pt (x y z : Q) : point := V3 x y z.

(** Three particles on one process, at resolution 2. *)
Definition scenario_pos : SharedArray point :=
  {| parts := [[pt 0.1 0.1 0.1; pt 1.9 1.9 1.9; pt 1.1 0.1 0.1]] |}.

(** The mesh of the three particles over the box (0,0,0)-(2,2,2): the
    particles 0, 1, 2 lie in the cells 0, 7, 1. *)
Definition scenario_mesh : SharedMesh.t :=
  {| SharedMesh.pos_min := pt 0 0 0;
     SharedMesh.pos_max := pt 2 2 2;
     SharedMesh.resolution := 2;
     SharedMesh.cell_size := pt 1 1 1;
     SharedMesh.cell_count := [1; 1; 0; 0; 0; 0; 0; 1]%Z;
     SharedMesh.cell_offset := [0; 1; 2; 2; 2; 2; 2; 2]%Z;
     SharedMesh.sort_idx := [0; 2; 1]%nat |}.

(** One process without particles. *)
Definition empty_pos : SharedArray point := {| parts := [[]] |}.

(** A snapshot with one group, and an alias that takes the name of one
    of its group-number datasets. *)
Definition scenario_snapshot : SnapshotDatasets.t :=
  {| SnapshotDatasets.datasets_in_file := [("PartType0", ["Masses"])]%string;
     SnapshotDatasets.named_columns := [];
     SnapshotDatasets.dataset_map := None |}.

Definition scenario_aliases : Dict.dict string :=
  [("PartType0/GroupNr_all", "PartType1/Masses")]%string.

(** An object whose dataset map has been set up, and the data read for it. *)
Definition scenario_named : SnapshotDatasets.t :=
  {| SnapshotDatasets.datasets_in_file := [("PartType0", ["Masses"])]%string;
     SnapshotDatasets.named_columns := [];
     SnapshotDatasets.dataset_map :=
       Some [("PartType0/Masses", ("PartType0", "Masses"))]%string |}.

Definition scenario_data : Dict.dict (Dict.dict nat) :=
  [("PartType0", [("Masses", 7%nat)])]%string.

(** The three particles on two processes. *)
Definition scenario_pos_two : SharedArray point :=
  {| parts := [[pt 0.1 0.1 0.1; pt 1.9 1.9 1.9]; [pt 1.1 0.1 0.1]] |}.

(** A snapshot file with two particle groups, a header and the column
    names of one dataset. *)
Definition scenario_file : SnapshotDatasets.file_handle :=
  {| SnapshotDatasets.file_groups :=
       [("Header", []); ("PartType0", ["Masses"; "ElementMassFractions"]);
        ("PartType4", ["Masses"])]%string;
     SnapshotDatasets.file_named_columns :=
       Some [("ElementMassFractions", ["Hydrogen"; "Helium"; "Carbon"])]%string |}.

(** An alias for the dataset that has named columns. *)
Definition scenario_column_aliases : Dict.dict string :=
  [("PartType0/Abundances", "PartType0/ElementMassFractions")]%string.

(** Two rows of element fractions. *)
Definition scenario_columns : Dict.dict (Dict.dict (SnapshotDatasets.array2 nat)) :=
  [("PartType0",
    [("ElementMassFractions",
      {| SnapshotDatasets.ncols := 3; SnapshotDatasets.rows := [[70; 28; 2]; [75; 24; 1]]%nat |})])
  ]%string.

(** Whether an alias and its target both hold exactly one [/]. *)
Definition well_formed_alias (aliases : Dict.dict string) (alias : string) : bool :=
  (SnapshotDatasets.count_char "/" alias =? 1)%nat
  && match Dict.get alias aliases with
     | Some target => (SnapshotDatasets.count_char "/" target =? 1)%nat
     | None => false
     end.

(** The object that [__init__] builds from the scenario file. *)
Definition scenario_loaded : SnapshotDatasets.t :=
  {| SnapshotDatasets.datasets_in_file :=
       [("PartType0", ["Masses"; "ElementMassFractions"]); ("PartType4", ["Masses"])]%string;
     SnapshotDatasets.named_columns :=
       [("ElementMassFractions", [("Hydrogen", 0); ("Helium", 1); ("Carbon", 2)]%nat)]%string;
     SnapshotDatasets.dataset_map := None |}.


Definition edge_centre : point := pt (-1) 0 0.



(** Three particles at resolution 2; the cells are 1.5 + 2^-52 wide in
    x, and particle 1 lies on the face between the two cells. *)
Definition seam_pos : SharedArray point :=
  {| parts := [[pt 0 0 0; pt (1.5 + (1 # 2 ^ 52)) 0 0; pt (3 + (1 # 2 ^ 51)) 2 2]] |}.


(** * Properties *)

(** ** The outcome monad *)

Lemma bind_ok_inv {A B : Type} (c : outcome A) (k : A -> outcome B) (b : B) :
  bind c k = Ok b -> exists a, c = Ok a /\ k a = Ok b.
Proof.
  destruct c as [a | e |]; simpl; intros H; try discriminate.
  exists a. split; [reflexivity | exact H].
Qed.

Lemma mapM_ok_inv {A B : Type} (f : A -> outcome B) (l : list A) (r : list B) :
  mapM f l = Ok r -> Forall2 (fun a b => f a = Ok b) l r.
Proof.
  revert r. induction l as [| a l IH]; simpl; intros r H.
  - injection H as <-. constructor.
  - apply bind_ok_inv in H. destruct H as (b & Hb & H).
    apply bind_ok_inv in H. destruct H as (bs & Hbs & H).
    injection H as <-. constructor; auto.
Qed.

Lemma mapM_ok_intro {A B : Type} (f : A -> outcome B) (l : list A) (r : list B) :
  Forall2 (fun a b => f a = Ok b) l r -> mapM f l = Ok r.
Proof.
  induction 1 as [| a b l r Hab _ IH]; simpl.
  - reflexivity.
  - rewrite Hab. simpl. rewrite IH. reflexivity.
Qed.

Lemma mapM_pure {A B : Type} (f : A -> outcome B) (g : A -> B) (l : list A) :
  (forall a, In a l -> f a = Ok (g a)) -> mapM f l = Ok (map g l).
Proof.
  induction l as [| a l IH]; simpl; intros H.
  - reflexivity.
  - rewrite (H a) by auto. simpl. rewrite IH by auto. reflexivity.
Qed.

Lemma Forall2_length_eq {A B : Type} (R : A -> B -> Prop) (l : list A) (r : list B) :
  Forall2 R l r -> length l = length r.
Proof. induction 1; simpl; congruence. Qed.

Lemma Forall2_concat {A B : Type} (R : A -> B -> Prop) (l : list (list A)) (r : list (list B)) :
  Forall2 (Forall2 R) l r -> Forall2 R (concat l) (concat r).
Proof.
  induction 1 as [| a b l r Hab _ IH]; simpl.
  - constructor.
  - apply Forall2_app; assumption.
Qed.

Lemma Forall2_nth_error {A B : Type} (R : A -> B -> Prop) (l : list A) (r : list B) :
  Forall2 R l r ->
  forall i a, nth_error l i = Some a -> exists b, nth_error r i = Some b /\ R a b.
Proof.
  induction 1 as [| a b l r Hab _ IH]; intros i x Hi.
  - destruct i; discriminate.
  - destruct i as [| i]; simpl in *.
    + injection Hi as <-. eauto.
    + eauto.
Qed.

(** ** The merge-sort index is a sorting index *)

Lemma deal_concat {A B : Type} (arr : list (list B)) (l : list A) :
  length l = length (concat arr) ->
  concat (deal (map (@length B) arr) l) = l.
Proof.
  revert l. induction arr as [| a arr IH]; simpl; intros l H.
  - destruct l; [reflexivity | discriminate].
  - rewrite IH.
    + apply firstn_skipn.
    + rewrite length_skipn, H, length_app. lia.
Qed.

Lemma map_snd_combine {A B : Type} (l : list A) (r : list B) :
  length l = length r -> map snd (combine l r) = r.
Proof.
  revert r. induction l as [| a l IH]; destruct r as [| b r]; simpl; intros H;
    try discriminate; [reflexivity |].
  f_equal. apply IH. lia.
Qed.

Lemma combine_seq_nth (keys : list Z) (s : nat) (p : Z * nat) :
  In p (combine keys (seq s (length keys))) ->
  (s <= snd p)%nat /\ nth (snd p - s) keys 0%Z = fst p.
Proof.
  revert s. induction keys as [| k keys IH]; simpl; intros s H.
  - contradiction.
  - destruct H as [<- | H]; simpl.
    + rewrite Nat.sub_diag. split; [lia | reflexivity].
    + apply IH in H. destruct H as [Hle Hn]. split; [lia |].
      replace (snd p - s)%nat with (S (snd p - S s)) by lia. exact Hn.
Qed.

Lemma sorted_pairs_keys (keys : list Z) (s : list (Z * nat)) :
  (forall p, In p s -> nth (snd p) keys 0%Z = fst p) ->
  Sorted (fun a b => is_true (KeyOrder.leb a b)) s ->
  Sorted Z.le (map (fun i => nth i keys 0%Z) (map snd s)).
Proof.
  intros Hin Hs. induction Hs as [| p s Hs IH Hhd]; simpl.
  - constructor.
  - constructor.
    + apply IH. intros q Hq. apply Hin. now right.
    + destruct Hhd as [| q s' Hpq]; simpl; constructor.
      rewrite (Hin p) by now left.
      rewrite (Hin q) by (right; now left).
      unfold KeyOrder.leb in Hpq. apply Z.leb_le. exact Hpq.
Qed.

Lemma merge_argsort_index (keys : list Z) :
  let idx := map snd (KeySort.sort (combine keys (seq 0 (length keys)))) in
  Permutation idx (seq 0 (length keys)) /\
  Sorted Z.le (map (fun i => nth i keys 0%Z) idx).
Proof.
  cbv zeta. set (l := combine keys (seq 0 (length keys))).
  assert (Hperm : Permutation l (KeySort.sort l)) by apply KeySort.Permuted_sort.
  split.
  - rewrite <- Hperm. unfold l. rewrite map_snd_combine; [reflexivity |].
    now rewrite length_seq.
  - apply sorted_pairs_keys; [| apply KeySort.Sorted_sort].
    intros p Hp. apply (Permutation_in _ (Permutation_sym Hperm)) in Hp.
    apply combine_seq_nth in Hp. rewrite Nat.sub_0_r in Hp. apply Hp.
Qed.

#[export] Instance MergeArgsort : ParallelSort.
Proof.
  refine {| parallel_sort := merge_argsort |}.
  - intros arr. unfold merge_argsort.
    rewrite deal_concat.
    + apply merge_argsort_index.
    + rewrite length_map, <- (Permutation_length (KeySort.Permuted_sort _)).
      rewrite length_combine, length_seq. lia.
  - intros arr. unfold merge_argsort.
    rewrite deal_concat.
    + apply merge_argsort_index.
    + rewrite length_map, <- (Permutation_length (KeySort.Permuted_sort _)).
      rewrite length_combine, length_seq. lia.
Defined.

(** ** Array primitives *)

Section ArrayFacts.

Import Np.
Local Open Scope Z_scope.

Lemma in_py_range (a b x : Z) : In x (py_range a b) <-> a <= x < b.
Proof.
  unfold py_range. rewrite in_map_iff. split.
  - intros (n & <- & Hn). apply in_seq in Hn. lia.
  - intros H. exists (Z.to_nat (x - a)). split; [lia |].
    apply in_seq. lia.
Qed.

Lemma length_py_range (a b : Z) : length (py_range a b) = Z.to_nat (b - a).
Proof. unfold py_range. now rewrite length_map, length_seq. Qed.

Lemma nth_error_py_range (a b : Z) (i : nat) :
  (i < Z.to_nat (b - a))%nat -> nth_error (py_range a b) i = Some (a + Z.of_nat i).
Proof.
  intros H. unfold py_range.
  rewrite nth_error_map, nth_error_seq.
  destruct (Nat.ltb_spec i (Z.to_nat (b - a))); [reflexivity | lia].
Qed.

Lemma py_range_snoc (a b : Z) :
  a <= b -> py_range a (b + 1) = (py_range a b ++ [b])%list.
Proof.
  intros H. unfold py_range.
  replace (Z.to_nat (b + 1 - a)) with (Z.to_nat (b - a) + 1)%nat by lia.
  rewrite seq_app, map_app. simpl. do 2 f_equal. lia.
Qed.

Lemma py_range_cons (a b : Z) :
  a < b -> py_range a b = a :: py_range (a + 1) b.
Proof.
  intros H. unfold py_range.
  replace (Z.to_nat (b - a)) with (S (Z.to_nat (b - (a + 1)))) by lia.
  simpl. f_equal; [lia |].
  rewrite <- seq_shift, map_map. apply map_ext. intros n. lia.
Qed.

Lemma getitem_map_range {A : Type} (f : Z -> A) (n c : Z) :
  0 <= c < n -> getitem (map f (py_range 0 n)) c = Ok (f c).
Proof.
  intros H. unfold getitem.
  rewrite length_map, length_py_range.
  destruct (Z.ltb_spec c 0); [lia |].
  destruct (Z.leb_spec 0 c); [| lia].
  destruct (Z.ltb_spec c (Z.of_nat (Z.to_nat (n - 0)))); [| lia].
  simpl. rewrite nth_error_map, nth_error_py_range by lia.
  simpl. f_equal. f_equal. lia.
Qed.

Lemma getitem_nat {A : Type} (a : list A) (i : nat) (v : A) :
  nth_error a i = Some v -> getitem a (Z.of_nat i) = Ok v.
Proof.
  intros H. unfold getitem.
  assert (Hlt : (i < length a)%nat) by (apply nth_error_Some; congruence).
  destruct (Z.ltb_spec (Z.of_nat i) 0); [lia |].
  destruct (Z.leb_spec 0 (Z.of_nat i)); [| lia].
  destruct (Z.ltb_spec (Z.of_nat i) (Z.of_nat (length a))); [| lia].
  simpl. rewrite Nat2Z.id, H. reflexivity.
Qed.

(** Membership in a slice with bounds that are not negative. *)
Lemma in_slice {A : Type} (a : list A) (start stop : Z) (x : A) :
  0 <= start -> 0 <= stop ->
  (In x (slice a start stop) <->
   exists i, (Z.to_nat start <= i < Z.to_nat stop)%nat /\ nth_error a i = Some x).
Proof.
  intros Hs He. unfold slice, slice_bound.
  destruct (Z.ltb_spec start 0); [lia |].
  destruct (Z.ltb_spec stop 0); [lia |].
  set (n := Z.of_nat (length a)).
  split.
  - intros Hin. apply In_nth_error in Hin. destruct Hin as (i & Hi).
    assert (Hlen : (i < length (firstn (Z.to_nat (Z.min stop n - Z.min start n))
                                   (skipn (Z.to_nat (Z.min start n)) a)))%nat)
      by (apply nth_error_Some; congruence).
    rewrite length_firstn, length_skipn in Hlen.
    rewrite nth_error_firstn in Hi.
    destruct (Nat.ltb_spec i (Z.to_nat (Z.min stop n - Z.min start n))); [| discriminate].
    rewrite nth_error_skipn in Hi.
    exists (Z.to_nat (Z.min start n) + i)%nat. split; [lia | exact Hi].
  - intros (i & Hi & Hx).
    assert (Hlt : (i < length a)%nat) by (apply nth_error_Some; congruence).
    apply nth_error_In with (n := (i - Z.to_nat (Z.min start n))%nat).
    rewrite nth_error_firstn.
    destruct (Nat.ltb_spec (i - Z.to_nat (Z.min start n))
                           (Z.to_nat (Z.min stop n - Z.min start n))); [| lia].
    rewrite nth_error_skipn.
    replace (Z.to_nat (Z.min start n) + (i - Z.to_nat (Z.min start n)))%nat with i by lia.
    exact Hx.
Qed.

Lemma slice_sublist {A : Type} (a : list A) (start stop : Z) :
  exists pre post, a = (pre ++ slice a start stop ++ post)%list.
Proof.
  unfold slice.
  set (lo := Z.to_nat (slice_bound (Z.of_nat (length a)) start)).
  set (k := Z.to_nat _).
  exists (firstn lo a), (skipn k (skipn lo a)).
  now rewrite firstn_skipn, firstn_skipn.
Qed.

Lemma NoDup_slice {A : Type} (a : list A) (start stop : Z) :
  NoDup a -> NoDup (slice a start stop).
Proof.
  intros H. destruct (slice_sublist a start stop) as (pre & post & E).
  rewrite E in H. apply NoDup_app_remove_l in H. now apply NoDup_app_remove_r in H.
Qed.

End ArrayFacts.

(** ** Counting and prefix sums *)

Section Counting.

Import Np.
Local Open Scope Z_scope.

Lemma count_cons (c x : Z) (xs : list Z) :
  count c (x :: xs) = (if c =? x then 1 else 0) + count c xs.
Proof.
  unfold count. cbn [filter]. destruct (c =? x); cbn [length]; lia.
Qed.

Lemma count_lt_cons (c x : Z) (xs : list Z) :
  count_lt c (x :: xs) = (if x <? c then 1 else 0) + count_lt c xs.
Proof.
  unfold count_lt. cbn [filter]. destruct (x <? c); cbn [length]; lia.
Qed.

Ltac count_cases :=
  rewrite ?count_cons, ?count_lt_cons;
  repeat match goal with
         | |- context [Z.eqb ?a ?b] => destruct (Z.eqb_spec a b)
         | |- context [Z.ltb ?a ?b] => destruct (Z.ltb_spec a b)
         end;
  try lia.

Lemma count_app (c : Z) (a b : list Z) : count c (a ++ b) = count c a + count c b.
Proof. unfold count. rewrite filter_app, length_app. lia. Qed.

Lemma count_nonneg (c : Z) (xs : list Z) : 0 <= count c xs.
Proof. unfold count. lia. Qed.

Lemma count_lt_nonneg (c : Z) (xs : list Z) : 0 <= count_lt c xs.
Proof. unfold count_lt. lia. Qed.

Lemma count_pos_in (c : Z) (xs : list Z) : 0 < count c xs <-> In c xs.
Proof.
  induction xs as [| x xs IH].
  - split; [unfold count; simpl; lia | contradiction].
  - pose proof (count_nonneg c xs). rewrite count_cons. simpl.
    destruct (Z.eqb_spec c x) as [-> | Hne].
    + split; [auto | lia].
    + rewrite Z.add_0_l, IH.
      split; [auto | intros [E | Hin]; [congruence | exact Hin]].
Qed.

Lemma count_lt_succ (c : Z) (xs : list Z) :
  count_lt (c + 1) xs = count_lt c xs + count c xs.
Proof.
  induction xs as [| x xs IH]; [reflexivity |]. count_cases.
Qed.

Lemma count_lt_mono (c c' : Z) (xs : list Z) : c <= c' -> count_lt c xs <= count_lt c' xs.
Proof.
  intros H. induction xs as [| x xs IH]; [reflexivity |]. count_cases.
Qed.

Lemma count_lt_none (c : Z) (xs : list Z) :
  Forall (fun x => c <= x) xs -> count_lt c xs = 0.
Proof.
  induction 1 as [| x xs Hx _ IH]; [reflexivity |]. count_cases.
Qed.

Lemma count_none (c : Z) (xs : list Z) :
  Forall (fun x => c < x) xs -> count c xs = 0.
Proof.
  induction 1 as [| x xs Hx _ IH]; [reflexivity |]. count_cases.
Qed.

Lemma count_total (c : Z) (xs : list Z) :
  count_lt c xs + count c xs <= Z.of_nat (length xs).
Proof.
  induction xs as [| x xs IH]; [reflexivity |].
  cbn [length]. rewrite Nat2Z.inj_succ. count_cases.
Qed.

Lemma count_perm (c : Z) (a b : list Z) : Permutation a b -> count c a = count c b.
Proof.
  induction 1 as [| x a b _ IH | x y a | a b d _ IH1 _ IH2].
  - reflexivity.
  - rewrite !count_cons. lia.
  - rewrite !count_cons. lia.
  - congruence.
Qed.

Lemma count_lt_perm (c : Z) (a b : list Z) : Permutation a b -> count_lt c a = count_lt c b.
Proof.
  induction 1 as [| x a b _ IH | x y a | a b d _ IH1 _ IH2].
  - reflexivity.
  - rewrite !count_lt_cons. lia.
  - rewrite !count_lt_cons. lia.
  - congruence.
Qed.

Lemma vec_add_map {A : Type} (f g : A -> Z) (l : list A) :
  vec_add (map f l) (map g l) = map (fun c => f c + g c) l.
Proof.
  unfold vec_add. induction l as [| a l IH]; simpl; [reflexivity |].
  now rewrite IH.
Qed.

(** The sum of the histograms of the processes is the histogram of all
    the keys. *)
Lemma reduce_counts (rng : list Z) (kss : list (list Z)) (k0 : list Z) :
  fold_left vec_add (map (fun ks => map (fun c => count c ks) rng) kss)
            (map (fun c => count c k0) rng)
  = map (fun c => count c (k0 ++ concat kss)) rng.
Proof.
  revert k0. induction kss as [| k1 kss IH]; intros k0; simpl.
  - now rewrite app_nil_r.
  - rewrite vec_add_map.
    rewrite (map_ext (fun c => count c k0 + count c k1) (fun c => count c (k0 ++ k1)))
      by (intros c; now rewrite count_app).
    rewrite IH. now rewrite <- app_assoc.
Qed.

Lemma cumsum_counts (keys : list Z) (n : nat) (a : Z) :
  cumsum_from (count_lt a keys)
              (map (fun c => count c keys) (py_range a (a + Z.of_nat n)))
  = map (fun c => count_lt (c + 1) keys) (py_range a (a + Z.of_nat n)).
Proof.
  revert a. induction n as [| n IH]; intros a.
  - unfold py_range. replace (a + Z.of_nat 0 - a) with 0 by lia. reflexivity.
  - rewrite py_range_cons by lia. simpl.
    rewrite <- count_lt_succ. f_equal.
    replace (a + Z.pos (Pos.of_succ_nat n)) with (a + 1 + Z.of_nat n) by lia.
    apply IH.
Qed.

Lemma py_range_shift (a b : Z) :
  py_range (a + 1) (b + 1) = map (fun c => c + 1) (py_range a b).
Proof.
  unfold py_range. rewrite map_map.
  replace (b + 1 - (a + 1)) with (b - a) by lia.
  apply map_ext. intros n. lia.
Qed.

(** The offsets written at construction count the keys below each cell. *)
Lemma offsets_spec (keys : list Z) (M : Z) :
  1 <= M -> Forall (fun k => 0 <= k) keys ->
  SharedMesh.offsets (map (fun c => count c keys) (py_range 0 M))
  = Ok (map (fun c => count_lt c keys) (py_range 0 M)).
Proof.
  intros HM Hk.
  replace M with (M - 1 + 1) at 1 by lia.
  rewrite py_range_snoc, map_app by lia. simpl.
  unfold SharedMesh.offsets.
  destruct (map (fun c => count c keys) (py_range 0 (M - 1)) ++ [count (M - 1) keys])%list
    as [| x l] eqn:E.
  { destruct (map (fun c => count c keys) (py_range 0 (M - 1))); discriminate. }
  rewrite <- E. rewrite removelast_last.
  assert (Hcum : cumsum (map (fun c => count c keys) (py_range 0 (M - 1)))
                 = map (fun c => count_lt (c + 1) keys) (py_range 0 (M - 1))).
  { unfold cumsum.
    pose proof (cumsum_counts keys (Z.to_nat (M - 1)) 0) as Hc.
    rewrite (count_lt_none (c := 0) Hk) in Hc.
    replace (0 + Z.of_nat (Z.to_nat (M - 1))) with (M - 1) in Hc by lia.
    exact Hc. }
  assert (Hif : (if (1 <? length (map (fun c => count c keys) (py_range 0 (M - 1))
                                     ++ [count (M - 1) keys]))%nat
                 then cumsum (map (fun c => count c keys) (py_range 0 (M - 1)))
                 else [])
                = cumsum (map (fun c => count c keys) (py_range 0 (M - 1)))).
  { destruct (Nat.ltb_spec 1 (length (map (fun c => count c keys) (py_range 0 (M - 1))
                                       ++ [count (M - 1) keys]))) as [| Hle];
      [reflexivity |].
    rewrite length_app, length_map in Hle. simpl in Hle.
    destruct (py_range 0 (M - 1)); [reflexivity | simpl in Hle; lia]. }
  rewrite Hif, Hcum. f_equal.
  rewrite (py_range_cons (a := 0) (b := M)) by lia. simpl.
  rewrite (count_lt_none (c := 0) Hk). f_equal.
  pose proof (py_range_shift 0 (M - 1)) as Hsh.
  replace (M - 1 + 1) with M in Hsh by lia.
  change (0 + 1) with 1 in *. rewrite Hsh, map_map. reflexivity.
Qed.

(** In a sorted list, the places that hold [c] are those from
    [count_lt c] on, [count c] of them. *)
Lemma sorted_place (c : Z) (sk : list Z) :
  StronglySorted Z.le sk ->
  forall i v, nth_error sk i = Some v ->
    (v = c <-> count_lt c sk <= Z.of_nat i < count_lt c sk + count c sk).
Proof.
  induction 1 as [| a l Hs IH Ha]; intros i v Hi.
  - destruct i; discriminate.
  - assert (Hl0 : c <= a -> count_lt c l = 0).
    { intros H. apply count_lt_none. eapply Forall_impl; [| exact Ha]. simpl. intros; lia. }
    assert (Hc0 : c < a -> count c l = 0).
    { intros H. apply count_none. eapply Forall_impl; [| exact Ha]. simpl. intros; lia. }
    pose proof (count_nonneg c l) as Hnn.
    pose proof (count_lt_nonneg c l) as Hnl.
    rewrite count_cons, count_lt_cons.
    destruct i as [| i]; simpl in Hi.
    + injection Hi as <-.
      destruct (Z.ltb_spec a c), (Z.eqb_spec c a); try lia;
        rewrite ?Hl0 by lia; lia.
    + specialize (IH i v Hi). rewrite IH.
      destruct (Z.ltb_spec a c), (Z.eqb_spec c a); try lia;
        rewrite ?Hl0 by lia; rewrite ?Hc0 by lia; lia.
Qed.

End Counting.

(** ** Buckets of a sorting index *)

Section Buckets.

Import Np.
Local Open Scope Z_scope.

Lemma map_nth_seq (keys : list Z) :
  map (fun i => nth i keys 0) (seq 0 (length keys)) = keys.
Proof.
  induction keys as [| k keys IH]; simpl; [reflexivity |].
  f_equal. rewrite <- seq_shift, map_map. exact IH.
Qed.

Variable keys : list Z.
Variable idx : list nat.
Hypothesis idx_perm : Permutation idx (seq 0 (length keys)).
Hypothesis idx_sorted : Sorted Z.le (map (fun i => nth i keys 0) idx).

Lemma sorted_keys_perm : Permutation (map (fun i => nth i keys 0) idx) keys.
Proof.
  eapply Permutation_trans.
  - apply Permutation_map. exact idx_perm.
  - rewrite map_nth_seq. apply Permutation_refl.
Qed.

Lemma idx_in (x : nat) : In x idx <-> (x < length keys)%nat.
Proof.
  split; intros H.
  - apply (Permutation_in _ idx_perm) in H. apply in_seq in H. lia.
  - apply (Permutation_in _ (Permutation_sym idx_perm)). apply in_seq. lia.
Qed.

Lemma idx_NoDup : NoDup idx.
Proof.
  apply (Permutation_NoDup (Permutation_sym idx_perm)). apply seq_NoDup.
Qed.

(** The places of [idx] that hold the particles of cell [c]. *)
Lemma idx_place (c : Z) (i x : nat) :
  nth_error idx i = Some x ->
  (nth x keys 0 = c <->
   count_lt c keys <= Z.of_nat i < count_lt c keys + count c keys).
Proof.
  intros Hi.
  rewrite <- (count_lt_perm c sorted_keys_perm), <- (count_perm c sorted_keys_perm).
  apply sorted_place.
  - apply Sorted_StronglySorted; [| exact idx_sorted].
    intros a b d. apply Z.le_trans.
  - rewrite nth_error_map, Hi. reflexivity.
Qed.

(** The bucket of cell [c] holds exactly the particles with key [c]. *)
Lemma bucket_members (c : Z) (x : nat) :
  In x (slice idx (count_lt c keys) (count_lt c keys + count c keys))
  <-> (x < length keys)%nat /\ nth x keys 0 = c.
Proof.
  pose proof (count_lt_nonneg c keys) as Hlo.
  pose proof (count_nonneg c keys) as Hcnt.
  rewrite in_slice by lia. split.
  - intros (i & Hi & Hx). split.
    + apply idx_in. eapply nth_error_In; eauto.
    + apply (idx_place c i Hx). lia.
  - intros [Hx Hc].
    apply idx_in in Hx. apply In_nth_error in Hx. destruct Hx as (i & Hi).
    exists i. split; [| exact Hi].
    apply (idx_place c i Hi) in Hc. lia.
Qed.

End Buckets.

(** ** Grid geometry *)

Section Geometry.

Import Np.

Lemma vec3_eq {A : Type} (u v : vec3 A) :
  (forall d : axis, vget d u = vget d v) -> u = v.
Proof.
  intros H. destruct u as [a b c], v as [a' b' c'].
  pose proof (H AxX) as Hx. pose proof (H AxY) as Hy. pose proof (H AxZ) as Hz.
  simpl in *. congruence.
Qed.

Lemma vget_vmap {A B : Type} (f : A -> B) (v : vec3 A) (d : axis) :
  vget d (vmap f v) = f (vget d v).
Proof. now destruct d. Qed.

Lemma vget_vzip {A B C : Type} (f : A -> B -> C) (u : vec3 A) (v : vec3 B) (d : axis) :
  vget d (vzip f u v) = f (vget d u) (vget d v).
Proof. now destruct d. Qed.

Lemma vseq_ok_inv {A : Type} (v : vec3 (outcome A)) (r : vec3 A) :
  vseq v = Ok r -> forall d : axis, vget d v = Ok (vget d r).
Proof.
  unfold vseq. intros H.
  apply bind_ok_inv in H. destruct H as (a & Ha & H).
  apply bind_ok_inv in H. destruct H as (b & Hb & H).
  apply bind_ok_inv in H. destruct H as (c & Hc & H).
  injection H as <-. intros []; assumption.
Qed.

Lemma vseq_ok_intro {A : Type} (v : vec3 (outcome A)) (r : vec3 A) :
  (forall d : axis, vget d v = Ok (vget d r)) -> vseq v = Ok r.
Proof.
  intros H. unfold vseq.
  rewrite (H AxX : v0 v = _), (H AxY : v1 v = _), (H AxZ : v2 v = _).
  destruct r; reflexivity.
Qed.

Lemma floor_div_int32_inv (a b : Q) (z : Z) :
  floor_div_int32 a b = Ok z ->
  ~ b == 0 /\ z = Qfloor (a / b) /\ (int32_min <= z <= int32_max)%Z.
Proof.
  unfold floor_div_int32.
  destruct (Qeq_bool b 0) eqn:Eb; [discriminate |].
  apply Qeq_bool_neq in Eb.
  destruct (Z.leb_spec int32_min (Qfloor (a / b))); cbn [andb]; [| discriminate].
  destruct (Z.leb_spec (Qfloor (a / b)) int32_max); [| discriminate].
  intros E. injection E as <-. auto.
Qed.

Lemma floor_div_int32_mono (a a' b : Q) (z z' : Z) :
  0 < b -> a <= a' ->
  floor_div_int32 a b = Ok z -> floor_div_int32 a' b = Ok z' -> (z <= z')%Z.
Proof.
  intros Hb Ha Hz Hz'.
  apply floor_div_int32_inv in Hz. apply floor_div_int32_inv in Hz'.
  destruct Hz as (_ & -> & _), Hz' as (_ & -> & _).
  apply Qfloor_resp_le. unfold Qdiv.
  apply Qmult_le_compat_r; [exact Ha |].
  apply Qlt_le_weak, Qinv_lt_0_compat, Hb.
Qed.

Lemma clip_mono (z z' lo hi : Z) : (z <= z')%Z -> (clip z lo hi <= clip z' lo hi)%Z.
Proof. unfold clip. lia. Qed.

Lemma clip_range (z lo hi : Z) : (lo <= hi)%Z -> (lo <= clip z lo hi <= hi)%Z.
Proof. unfold clip. lia. Qed.

(** What [cell_coord] computes on each axis. *)
Lemma cell_coord_inv (pmin cs : vec3 Q) (R : Z) (p : point) (c : vec3 Z) :
  SharedMesh.cell_coord pmin cs R p = Ok c ->
  forall d : axis, exists z,
    floor_div_int32 (vget d p - vget d pmin) (vget d cs) = Ok z /\
    vget d c = clip z 0 (R - 1).
Proof.
  unfold SharedMesh.cell_coord. intros H d.
  apply bind_ok_inv in H. destruct H as (raw & Hraw & H).
  injection H as <-.
  exists (vget d raw). split.
  - pose proof (vseq_ok_inv _ Hraw d) as Hd.
    now rewrite !vget_vzip in Hd.
  - now rewrite vget_vmap.
Qed.

Lemma cell_coord_intro (pmin cs : vec3 Q) (R : Z) (p : point) (raw : vec3 Z) :
  (forall d : axis,
      floor_div_int32 (vget d p - vget d pmin) (vget d cs) = Ok (vget d raw)) ->
  SharedMesh.cell_coord pmin cs R p = Ok (vmap (fun c => clip c 0 (R - 1)) raw).
Proof.
  intros H. unfold SharedMesh.cell_coord.
  rewrite (@vseq_ok_intro _ _ raw); [reflexivity |].
  intros d. rewrite !vget_vzip. apply H.
Qed.

Lemma cell_coord_mono (pmin cs : vec3 Q) (R : Z) (p q : point) (cp cq : vec3 Z) (d : axis) :
  0 < vget d cs -> vget d p <= vget d q ->
  SharedMesh.cell_coord pmin cs R p = Ok cp ->
  SharedMesh.cell_coord pmin cs R q = Ok cq ->
  (vget d cp <= vget d cq)%Z.
Proof.
  intros Hcs Hpq Hp Hq.
  destruct (cell_coord_inv _ _ _ _ Hp d) as (z & Hz & ->).
  destruct (cell_coord_inv _ _ _ _ Hq d) as (z' & Hz' & ->).
  apply clip_mono. refine (floor_div_int32_mono Hcs _ Hz Hz'). lra.
Qed.

Lemma cell_coord_range (pmin cs : vec3 Q) (R : Z) (p : point) (c : vec3 Z) (d : axis) :
  (1 <= R)%Z -> SharedMesh.cell_coord pmin cs R p = Ok c ->
  (0 <= vget d c <= R - 1)%Z.
Proof.
  intros HR H. destruct (cell_coord_inv _ _ _ _ H d) as (z & _ & ->).
  apply clip_range. lia.
Qed.

Local Open Scope Z_scope.

Lemma wrap32_small (z : Z) : - 2 ^ 31 <= z < 2 ^ 31 -> wrap32 z = z.
Proof.
  intros H. unfold wrap32. rewrite Z.mod_small; lia.
Qed.

Lemma cube_bound (R i j k : Z) :
  1 <= R -> 0 <= i <= R - 1 -> 0 <= j <= R - 1 -> 0 <= k <= R - 1 ->
  0 <= R * j <= R * R - R /\ 0 <= R * R * k <= R * R * R - R * R /\
  R * R <= R * R * R /\ R <= R * R.
Proof. intros. nia. Qed.

(** Without overflow the 32-bit cell index is the exact one. *)
Lemma linear_int32_exact (R : Z) (c : vec3 Z) :
  1 <= R -> R ^ 3 <= 2 ^ 31 ->
  (forall d : axis, 0 <= vget d c <= R - 1) ->
  SharedMesh.linear_int32 R c = SharedMesh.cell_nr R c /\
  0 <= SharedMesh.cell_nr R c < R ^ 3.
Proof.
  intros HR H3 Hc.
  pose proof (Hc AxX) as Hx. pose proof (Hc AxY) as Hy. pose proof (Hc AxZ) as Hz.
  simpl in Hx, Hy, Hz.
  unfold SharedMesh.linear_int32, SharedMesh.cell_nr.
  replace (R ^ 3) with (R * R * R) in * by ring.
  replace (R ^ 2) with (R * R) by ring.
  destruct (cube_bound HR Hx Hy Hz) as (Hj & Hk & H23 & H12).
  rewrite (wrap32_small (z := R * v1 c)) by lia.
  rewrite (wrap32_small (z := R * R * v2 c)) by lia.
  rewrite (wrap32_small (z := v0 c + R * v1 c)) by lia.
  rewrite wrap32_small by lia.
  lia.
Qed.

Lemma cell_nr_inj (R : Z) (c c' : vec3 Z) :
  1 <= R ->
  (forall d : axis, 0 <= vget d c <= R - 1) ->
  (forall d : axis, 0 <= vget d c' <= R - 1) ->
  SharedMesh.cell_nr R c = SharedMesh.cell_nr R c' -> c = c'.
Proof.
  intros HR Hc Hc' E. unfold SharedMesh.cell_nr in E.
  replace (R ^ 2) with (R * R) in E by ring.
  pose proof (Hc AxX) as Hx. pose proof (Hc AxY) as Hy. pose proof (Hc AxZ) as Hz.
  pose proof (Hc' AxX) as Hx'. pose proof (Hc' AxY) as Hy'. pose proof (Hc' AxZ) as Hz'.
  simpl in *.
  assert (Hsmall : forall u t, - (R - 1) <= u <= R - 1 -> u = R * t -> t = 0)
    by (intros u t Hu Ht; nia).
  assert (E0 : v0 c = v0 c').
  { pose proof (Hsmall (v0 c - v0 c') ((v1 c' - v1 c) + R * (v2 c' - v2 c))) as Ht.
    assert (v1 c' - v1 c + R * (v2 c' - v2 c) = 0) by (apply Ht; lia).
    lia. }
  assert (E12 : v1 c + R * v2 c = v1 c' + R * v2 c') by nia.
  assert (E1 : v1 c = v1 c').
  { pose proof (Hsmall (v1 c - v1 c') (v2 c' - v2 c)) as Ht.
    assert (v2 c' - v2 c = 0) by (apply Ht; lia).
    lia. }
  assert (E2 : v2 c = v2 c') by nia.
  apply vec3_eq. intros []; assumption.
Qed.

Lemma in_cells_in_range (lo hi c : vec3 Z) :
  In c (SharedMesh.cells_in_range lo hi) <-> between lo hi c.
Proof.
  unfold SharedMesh.cells_in_range, between.
  rewrite in_flat_map. split.
  - intros (k & Hk & H). apply in_flat_map in H. destruct H as (j & Hj & H).
    apply in_map_iff in H. destruct H as (i & <- & Hi).
    apply in_py_range in Hk, Hj, Hi. intros []; simpl; lia.
  - intros H.
    pose proof (H AxX) as Hx. pose proof (H AxY) as Hy. pose proof (H AxZ) as Hz.
    simpl in *.
    exists (v2 c). split; [apply in_py_range; lia |].
    apply in_flat_map. exists (v1 c). split; [apply in_py_range; lia |].
    apply in_map_iff. exists (v0 c). split; [now destruct c | apply in_py_range; lia].
Qed.

End Geometry.

(** ** What construction establishes *)

Section BoundingBox.

Lemma fold_vmin_lower (l : list point) (acc : point) (d : axis) :
  vget d (fold_left (vzip Qmin) l acc) <= vget d acc /\
  forall p, In p l -> vget d (fold_left (vzip Qmin) l acc) <= vget d p.
Proof.
  revert acc. induction l as [| q l IH]; intros acc; simpl.
  - split; [apply Qle_refl | contradiction].
  - destruct (IH (vzip Qmin acc q)) as [Hacc Hl].
    rewrite vget_vzip in Hacc. split.
    + eapply Qle_trans; [exact Hacc | apply Q.le_min_l].
    + intros p [<- | Hp]; [| now apply Hl].
      eapply Qle_trans; [exact Hacc | apply Q.le_min_r].
Qed.

Lemma fold_vmax_upper (l : list point) (acc : point) (d : axis) :
  vget d acc <= vget d (fold_left (vzip Qmax) l acc) /\
  forall p, In p l -> vget d p <= vget d (fold_left (vzip Qmax) l acc).
Proof.
  revert acc. induction l as [| q l IH]; intros acc; simpl.
  - split; [apply Qle_refl | contradiction].
  - destruct (IH (vzip Qmax acc q)) as [Hacc Hl].
    rewrite vget_vzip in Hacc. split.
    + eapply Qle_trans; [apply Q.le_max_l | exact Hacc].
    + intros p [<- | Hp]; [| now apply Hl].
      eapply Qle_trans; [apply Q.le_max_r | exact Hacc].
Qed.

Lemma amin_lower (a : list point) (mn : point) :
  SharedMesh.amin a = Ok mn -> forall p, In p a -> forall d, vget d mn <= vget d p.
Proof.
  destruct a as [| q a]; simpl; intros H; [discriminate |].
  injection H as <-. intros p [<- | Hp] d.
  - apply (proj1 (fold_vmin_lower _ _ _)).
  - now apply (proj2 (fold_vmin_lower _ _ _)).
Qed.

Lemma amax_upper (a : list point) (mx : point) :
  SharedMesh.amax a = Ok mx -> forall p, In p a -> forall d, vget d p <= vget d mx.
Proof.
  destruct a as [| q a]; simpl; intros H; [discriminate |].
  injection H as <-. intros p [<- | Hp] d.
  - apply (proj1 (fold_vmax_upper _ _ _)).
  - now apply (proj2 (fold_vmax_upper _ _ _)).
Qed.

Lemma all_reduce_min_lower (l : list point) (g : point) :
  all_reduce (vzip Qmin) l = Ok g -> forall mn, In mn l -> forall d, vget d g <= vget d mn.
Proof.
  destruct l as [| q l]; simpl; intros H; [discriminate |].
  injection H as <-. intros p [<- | Hp] d.
  - apply (proj1 (fold_vmin_lower _ _ _)).
  - now apply (proj2 (fold_vmin_lower _ _ _)).
Qed.

Lemma all_reduce_max_upper (l : list point) (g : point) :
  all_reduce (vzip Qmax) l = Ok g -> forall mx, In mx l -> forall d, vget d mx <= vget d g.
Proof.
  destruct l as [| q l]; simpl; intros H; [discriminate |].
  injection H as <-. intros p [<- | Hp] d.
  - apply (proj1 (fold_vmax_upper _ _ _)).
  - now apply (proj2 (fold_vmax_upper _ _ _)).
Qed.

Lemma Forall2_in_l {A B : Type} (R : A -> B -> Prop) (l : list A) (r : list B) (a : A) :
  Forall2 R l r -> In a l -> exists b, In b r /\ R a b.
Proof.
  induction 1 as [| x y l r Hxy _ IH]; intros Hin; [contradiction |].
  destruct Hin as [<- | Hin].
  - exists y. split; [now left | exact Hxy].
  - destruct (IH Hin) as (b & Hb & Hab). exists b. split; [now right | exact Hab].
Qed.

Lemma Forall2_impl_in {A B : Type} (R R' : A -> B -> Prop) (l : list A) (r : list B) :
  Forall2 R l r -> (forall a b, In b r -> R a b -> R' a b) -> Forall2 R' l r.
Proof.
  induction 1 as [| x y l r Hxy _ IH]; intros H; constructor.
  - apply H; [now left | exact Hxy].
  - apply IH. intros a b Hb. apply H. now right.
Qed.

(** The reduced box bounds every particle of every process. *)
Lemma box_bounds (pos : SharedArray point) (mins maxs : list point) (pmin pmax : point) :
  mapM SharedMesh.amin (parts pos) = Ok mins ->
  mapM SharedMesh.amax (parts pos) = Ok maxs ->
  all_reduce (vzip Qmin) mins = Ok pmin ->
  all_reduce (vzip Qmax) maxs = Ok pmax ->
  forall p, In p (full pos) -> forall d,
    vget d pmin <= vget d p /\ vget d p <= vget d pmax.
Proof.
  intros Hmins Hmaxs Hmin Hmax p Hp d.
  apply mapM_ok_inv in Hmins. apply mapM_ok_inv in Hmaxs.
  unfold full in Hp. apply in_concat in Hp. destruct Hp as (part & Hpart & Hp).
  destruct (Forall2_in_l part Hmins Hpart) as (mn & Hmn & Hamin).
  destruct (Forall2_in_l part Hmaxs Hpart) as (mx & Hmx & Hamax).
  split.
  - eapply Qle_trans; [eapply all_reduce_min_lower; eauto |].
    eapply amin_lower; eauto.
  - eapply Qle_trans; [eapply amax_upper; eauto |].
    eapply all_reduce_max_upper; eauto.
Qed.

(** Construction needs a particle on rank 0. *)
Lemma first_particle (pos : SharedArray point) (mins : list point) (pmin : point) :
  mapM SharedMesh.amin (parts pos) = Ok mins ->
  all_reduce (vzip Qmin) mins = Ok pmin ->
  exists p, In p (full pos).
Proof.
  intros Hmins Hmin. apply mapM_ok_inv in Hmins.
  unfold full. destruct Hmins as [| part mn ps ms Hpart _]; [discriminate |].
  destruct part as [| p part]; [discriminate |].
  exists p. simpl. now left.
Qed.

End BoundingBox.

Section Histogram.

Import Np.
Local Open Scope Z_scope.

Lemma max_bound (xs : list Z) (n : Z) :
  fold_right Z.max (-1) xs + 1 <= n -> Forall (fun k => k < n) xs.
Proof.
  induction xs as [| x xs IH]; simpl; intros H; constructor.
  - lia.
  - apply IH. lia.
Qed.

Lemma existsb_neg_false (xs : list Z) :
  existsb (fun x => x <? 0) xs = false -> Forall (fun k => 0 <= k) xs.
Proof.
  induction xs as [| x xs IH]; simpl; intros H; constructor.
  - apply orb_false_iff in H. destruct H as [H _].
    destruct (Z.ltb_spec x 0); [discriminate | lia].
  - apply IH. apply orb_false_iff in H. apply H.
Qed.

(** A histogram that has exactly [n] bins. *)
Lemma bincount_inv (xs : list Z) (n : Z) (lc : list Z) :
  bincount xs n = Ok lc -> Z.of_nat (length lc) = n ->
  lc = map (fun c => count c xs) (py_range 0 n) /\
  Forall (fun k => 0 <= k < n) xs.
Proof.
  unfold bincount.
  destruct (Z.ltb_spec n 0) as [| Hn]; [discriminate |].
  destruct (existsb (fun x => x <? 0) xs) eqn:Eneg; [discriminate |].
  intros H Hlen. injection H as <-.
  rewrite length_map, length_py_range in Hlen.
  assert (Hbins : Z.max n (fold_right Z.max (-1) xs + 1) = n) by lia.
  rewrite Hbins. split; [reflexivity |].
  apply existsb_neg_false in Eneg.
  assert (Hup : Forall (fun k => k < n) xs) by (apply max_bound; lia).
  rewrite Forall_forall in *. intros k Hk.
  specialize (Eneg k Hk). specialize (Hup k Hk). simpl in *. lia.
Qed.

Lemma length_vec_add (a b : list Z) :
  length b = length a -> length (vec_add a b) = length a.
Proof.
  intros H. unfold vec_add. rewrite length_map, length_combine. lia.
Qed.

Lemma fold_vec_add_length (cs : list (list Z)) (c0 : list Z) :
  Forall (fun c => length c = length c0) cs ->
  length (fold_left vec_add cs c0) = length c0.
Proof.
  revert c0. induction cs as [| c cs IH]; intros c0 H; simpl; [reflexivity |].
  inversion H as [| ? ? Hc Hcs]; subst.
  rewrite IH.
  - now apply length_vec_add.
  - rewrite length_vec_add by assumption. exact Hcs.
Qed.

(** The reduced histogram counts the keys of all the processes. *)
Lemma global_count_spec (cell_idx local_count : list (list Z)) (n : Z) (gc : list Z) :
  mapM (fun idx => bincount idx n) cell_idx = Ok local_count ->
  reduce_sum local_count = Ok gc ->
  Z.of_nat (length gc) = n ->
  gc = map (fun c => count c (concat cell_idx)) (py_range 0 n) /\
  Forall (fun k => 0 <= k < n) (concat cell_idx).
Proof.
  intros Hlc Hred Hlen.
  apply mapM_ok_inv in Hlc.
  destruct local_count as [| c0 cs]; [discriminate |].
  simpl in Hred.
  destruct (forallb (fun c => Nat.eqb (length c) (length c0)) cs) eqn:Hall; [| discriminate].
  injection Hred as <-.
  rewrite forallb_forall in Hall.
  assert (Hlens : Forall (fun c => length c = length c0) cs).
  { apply Forall_forall. intros c Hc. apply Nat.eqb_eq. now apply Hall. }
  rewrite fold_vec_add_length in Hlen by exact Hlens.
  assert (Heach : Forall2 (fun ks lc => lc = map (fun c => count c ks) (py_range 0 n)
                                        /\ Forall (fun k => 0 <= k < n) ks)
                          cell_idx (c0 :: cs)).
  { eapply Forall2_impl_in; [exact Hlc |]. cbv beta. intros ks lc Hin Hb.
    apply bincount_inv; [exact Hb |].
    destruct Hin as [<- | Hin]; [exact Hlen |].
    rewrite Forall_forall in Hlens. rewrite (Hlens _ Hin). exact Hlen. }
  clear Hlc Hall Hlens Hlen.
  inversion Heach as [| k0 ? kss ? [Hc0 Hk0] Hrest]; subst.
  assert (Hcs : cs = map (fun ks => map (fun c => count c ks) (py_range 0 n)) kss
                /\ Forall (fun k => 0 <= k < n) (concat kss)).
  { clear Heach. induction Hrest as [| ks lc kss cs [-> Hks] _ IH]; simpl.
    - split; [reflexivity | constructor].
    - destruct IH as [-> Hall]. split; [reflexivity |].
      apply Forall_app. split; assumption. }
  destruct Hcs as [-> Hkss]. split.
  - apply reduce_counts.
  - simpl. apply Forall_app. split; assumption.
Qed.

End Histogram.

Section Construction.

Import Np.
Context {PS : ParallelSort}.

Lemma inject_Z_pos (R : Z) : (1 <= R)%Z -> 0 < inject_Z R.
Proof. intros H. unfold Qlt. simpl. lia. Qed.

Lemma cube_pos (R : Z) : (1 <= R ^ 3)%Z -> (1 <= R)%Z.
Proof. intros H. replace (R ^ 3)%Z with (R * R * R)%Z in H by ring. nia. Qed.

(** Every mesh that [__init__] returns satisfies [built_from]. *)
Lemma init_built (pos : SharedArray point) (R : Z) (m : SharedMesh.t) :
  SharedMesh.init pos R = Ok m ->
  exists keys, built_from pos m keys /\ SharedMesh.resolution m = R.
Proof.
  unfold SharedMesh.init. intros H.
  apply bind_ok_inv in H. destruct H as (mins & Hmins & H).
  apply bind_ok_inv in H. destruct H as (maxs & Hmaxs & H).
  apply bind_ok_inv in H. destruct H as (pmin & Hpmin & H).
  apply bind_ok_inv in H. destruct H as (pmax & Hpmax & H).
  apply bind_ok_inv in H. destruct H as (cell_idx & Hidx & H).
  apply bind_ok_inv in H. destruct H as (local_count & Hlc & H).
  apply bind_ok_inv in H. destruct H as (gc & Hgc & H).
  destruct (Z.eqb_spec (Z.of_nat (length gc)) (R ^ 3)) as [Hlen | Hlen];
    cbn [negb] in H; [| discriminate].
  apply bind_ok_inv in H. destruct H as (off & Hoff & H).
  injection H as <-.
  destruct (global_count_spec _ Hlc Hgc Hlen) as [Egc Hrange].
  assert (HR : (1 <= R)%Z).
  { apply cube_pos. destruct gc; [discriminate |]. simpl in Hlen. lia. }
  assert (Hkeys : Forall2 (fun p k =>
            (c <- SharedMesh.cell_coord pmin
                    (vmap (fun e => e / inject_Z R) (vzip Qminus pmax pmin)) R p ;;
             Ok (SharedMesh.linear_int32 R c)) = Ok k)
          (full pos) (concat cell_idx)).
  { apply Forall2_concat. apply mapM_ok_inv in Hidx.
    eapply Forall2_impl; [| exact Hidx]. intros part ks Hl.
    now apply mapM_ok_inv in Hl. }
  pose proof (box_bounds pos Hmins Hmaxs Hpmin Hpmax) as Hbox.
  destruct (first_particle pos Hmins Hpmin) as (p0 & Hp0).
  exists (concat cell_idx). split; [| reflexivity].
  constructor; cbn [SharedMesh.resolution SharedMesh.cell_size SharedMesh.pos_min
                    SharedMesh.pos_max SharedMesh.cell_count SharedMesh.cell_offset
                    SharedMesh.sort_idx].
  - exact HR.
  - intros d. rewrite vget_vmap, vget_vzip.
    assert (Hne : ~ vget d pmax - vget d pmin == 0 /\
                  ~ (vget d pmax - vget d pmin) / inject_Z R == 0).
    { destruct (Forall2_in_l p0 Hkeys Hp0) as (k & _ & Hk).
      apply bind_ok_inv in Hk. destruct Hk as (c & Hc & _).
      destruct (cell_coord_inv _ _ _ _ Hc d) as (z & Hz & _).
      apply floor_div_int32_inv in Hz. destruct Hz as (Hz & _).
      rewrite vget_vmap, vget_vzip in Hz. split; [| exact Hz].
      intros E. apply Hz. rewrite E. reflexivity. }
    destruct (Hbox p0 Hp0 d) as [Hlo Hhi].
    pose proof (inject_Z_pos HR) as HRq.
    apply Qlt_shift_div_l; [exact HRq |].
    destruct Hne as [Hne _]. lra.
  - exact Hbox.
  - intros d. rewrite vget_vmap, vget_vzip.
    pose proof (inject_Z_pos HR) as HRq.
    rewrite Qmult_comm. apply Qmult_div_r. lra.
  - exact Hkeys.
  - exact Hrange.
  - exact Egc.
  - rewrite Egc in Hoff. rewrite offsets_spec in Hoff.
    + now injection Hoff as <-.
    + lia.
    + eapply Forall_impl; [| exact Hrange]. simpl. intros; lia.
  - apply parallel_sort_perm.
  - apply parallel_sort_sorted.
Qed.

End Construction.

(** ** Queries on a built mesh *)

Lemma mapM_collect {A X : Type} (f : A -> outcome (list (list X)))
  (P : A -> X -> Prop) (cells : list A) :
  (forall c, In c cells -> exists r, f c = Ok r /\ forall x, In x (concat r) <-> P c x) ->
  exists rs, mapM f cells = Ok rs /\
    forall x, In x (concat (concat rs)) <-> exists c, In c cells /\ P c x.
Proof.
  induction cells as [| c cells IH]; intros H.
  - exists []. split; [reflexivity |]. simpl. split; [contradiction |].
    intros (c & [] & _).
  - destruct (H c (or_introl eq_refl)) as (r & Hr & HP).
    destruct IH as (rs & Hrs & HPs); [intros c' Hc'; apply H; now right |].
    exists (r :: rs). split.
    + simpl. rewrite Hr. simpl. rewrite Hrs. reflexivity.
    + intros x. simpl. rewrite concat_app, in_app_iff, HP, HPs. split.
      * intros [Hx | (c' & Hc' & Hx)]; [exists c | exists c']; auto.
      * intros (c' & [<- | Hc'] & Hx); [left | right; exists c']; auto.
Qed.

Lemma compress_map {A : Type} (f : A -> bool) (l : list A) :
  SharedMesh.compress l (map f l) = filter f l.
Proof.
  unfold SharedMesh.compress. induction l as [| a l IH]; simpl; [reflexivity |].
  destruct (f a); simpl; now rewrite IH.
Qed.

Lemma filter_id_map {A : Type} (f : A -> bool) (l : list A) :
  length (filter id (map f l)) = length (filter f l).
Proof.
  induction l as [| a l IH]; simpl; [reflexivity |].
  unfold id at 1. destruct (f a); simpl; now rewrite IH.
Qed.

Section Queries.

Import Np.
Local Open Scope Z_scope.

Variable pos : SharedArray point.
Variable m : SharedMesh.t.
Variable keys : list Z.
Hypothesis built : built_from pos m keys.
Hypothesis no_overflow : SharedMesh.resolution m ^ 3 <= 2 ^ 31.

Let R := SharedMesh.resolution m.

Lemma mesh_coord_range (p : point) (c : vec3 Z) :
  mesh_coord m p = Ok c -> forall d : axis, 0 <= vget d c <= R - 1.
Proof.
  intros H d. eapply cell_coord_range; [apply (bf_resolution built) | exact H].
Qed.

Lemma length_keys : length keys = length (full pos).
Proof. symmetry. apply (Forall2_length_eq (bf_keys built)). Qed.

(** The key of a particle is the exact number of its cell. *)
Lemma particle_key (x : nat) (p : point) :
  nth_error (full pos) x = Some p ->
  exists c, mesh_coord m p = Ok c /\ nth x keys 0 = SharedMesh.cell_nr R c.
Proof.
  intros Hx.
  destruct (Forall2_nth_error (bf_keys built) _ Hx) as (k & Hk & Hpk).
  unfold particle_cell in Hpk. apply bind_ok_inv in Hpk.
  destruct Hpk as (c & Hc & Hlin). injection Hlin as <-.
  exists c. split; [exact Hc |].
  rewrite (nth_error_nth _ _ 0 Hk).
  apply linear_int32_exact; [apply (bf_resolution built) | exact no_overflow |].
  now apply mesh_coord_range with (p := p).
Qed.

Lemma particle_at (x : nat) :
  (x < length keys)%nat -> exists p, nth_error (full pos) x = Some p.
Proof.
  intros H. rewrite length_keys in H.
  destruct (nth_error (full pos) x) as [p |] eqn:E; [eauto |].
  apply nth_error_None in E. lia.
Qed.

(** The particles gathered from one cell of the grid. *)
Lemma cell_members (c : vec3 Z) (x : nat) :
  (forall d : axis, 0 <= vget d c <= R - 1) ->
  ((x < length keys)%nat /\ nth x keys 0 = SharedMesh.cell_nr R c
   <-> exists p, nth_error (full pos) x = Some p /\ mesh_coord m p = Ok c).
Proof.
  intros Hc. split.
  - intros [Hx Hk]. destruct (particle_at Hx) as (p & Hp).
    exists p. split; [exact Hp |].
    destruct (particle_key _ Hp) as (c' & Hc' & Hk').
    rewrite Hk in Hk'.
    assert (E : c = c').
    { eapply cell_nr_inj;
        [apply (bf_resolution built) | exact Hc | exact (mesh_coord_range p Hc') | exact Hk']. }
    rewrite E. exact Hc'.
  - intros (p & Hp & Hpc). split.
    + rewrite length_keys. apply nth_error_Some. congruence.
    + destruct (particle_key _ Hp) as (c' & Hc' & Hk').
      rewrite Hpc in Hc'. now injection Hc' as <-.
Qed.

Lemma lookup_cell (c : vec3 Z) :
  (forall d : axis, 0 <= vget d c <= R - 1) ->
  getitem (SharedMesh.cell_offset m) (SharedMesh.cell_nr R c)
    = Ok (count_lt (SharedMesh.cell_nr R c) keys) /\
  getitem (SharedMesh.cell_count m) (SharedMesh.cell_nr R c)
    = Ok (count (SharedMesh.cell_nr R c) keys).
Proof.
  intros Hc.
  destruct (linear_int32_exact c (bf_resolution built) no_overflow Hc) as [_ Hnr].
  rewrite (bf_offset built), (bf_count built).
  split.
  - apply (getitem_map_range (fun c => count_lt c keys)). exact Hnr.
  - apply (getitem_map_range (fun c => count c keys)). exact Hnr.
Qed.

Lemma visit_cell_spec (c : vec3 Z) :
  (forall d : axis, 0 <= vget d c <= R - 1) ->
  exists r, SharedMesh.visit_cell m c = Ok r /\
    forall x, In x (concat r) <->
      exists p, nth_error (full pos) x = Some p /\ mesh_coord m p = Ok c.
Proof.
  intros Hc. destruct (lookup_cell c Hc) as [Hoff Hcnt].
  unfold SharedMesh.visit_cell. fold R. rewrite Hoff, Hcnt. cbn [bind].
  pose proof (@bucket_members keys (SharedMesh.sort_idx m) (bf_perm built)
                              (bf_sorted built) (SharedMesh.cell_nr R c)) as Hb.
  destruct (Z.ltb_spec 0 (count (SharedMesh.cell_nr R c) keys)) as [Hpos | Hzero].
  - eexists. split; [reflexivity |]. intros x.
    cbn [concat]. rewrite app_nil_r, Hb. now apply cell_members.
  - exists []. split; [reflexivity |]. intros x. cbn [concat].
    rewrite <- cell_members by exact Hc. split; [contradiction |].
    intros [Hx Hk].
    assert (Hin : In (SharedMesh.cell_nr R c) keys)
      by (rewrite <- Hk; now apply nth_In).
    apply count_pos_in in Hin. lia.
Qed.

Lemma range_in_grid (lo hi c : vec3 Z) :
  (forall d : axis, 0 <= vget d lo <= R - 1) ->
  (forall d : axis, 0 <= vget d hi <= R - 1) ->
  between lo hi c -> forall d : axis, 0 <= vget d c <= R - 1.
Proof.
  intros Hlo Hhi Hc d. specialize (Hlo d). specialize (Hhi d). specialize (Hc d). lia.
Qed.

(** [query] returns the particles of the cells between the two corners. *)
Lemma query_spec (qmin qmax : point) (lo hi : vec3 Z) :
  mesh_coord m qmin = Ok lo -> mesh_coord m qmax = Ok hi ->
  exists res, SharedMesh.query m qmin qmax = Ok res /\
    forall x, In x res <->
      exists p c, nth_error (full pos) x = Some p /\ mesh_coord m p = Ok c /\
                  between lo hi c.
Proof.
  intros Hlo Hhi.
  destruct (mapM_collect (SharedMesh.visit_cell m)
              (fun c x => exists p, nth_error (full pos) x = Some p /\ mesh_coord m p = Ok c)
              (SharedMesh.cells_in_range lo hi)) as (rs & Hrs & Hmem).
  { intros c Hc. apply visit_cell_spec.
    apply in_cells_in_range in Hc.
    apply (range_in_grid (lo := lo) (hi := hi));
      [exact (mesh_coord_range qmin Hlo) | exact (mesh_coord_range qmax Hhi) | exact Hc]. }
  exists (concat (concat rs)). split.
  - unfold SharedMesh.query. unfold mesh_coord in Hlo, Hhi.
    rewrite Hlo, Hhi. cbn [bind]. rewrite Hrs. reflexivity.
  - intros x. rewrite Hmem. split.
    + intros (c & Hc & p & Hp & Hpc). exists p, c.
      apply in_cells_in_range in Hc. auto.
    + intros (p & c & Hp & Hpc & Hc). exists c. split.
      * now apply in_cells_in_range.
      * eauto.
Qed.



End Queries.

(** * The spatial index *)

Section MeshResults.

Import Np.
Context {PS : ParallelSort}.

Lemma nth_map_range {A : Type} (f : Z -> A) (n : Z) (c : nat) (d : A) :
  (c < Z.to_nat n)%nat -> nth c (map f (py_range 0 n)) d = f (Z.of_nat c).
Proof.
  intros H. apply nth_error_nth.
  rewrite nth_error_map, nth_error_py_range by lia. reflexivity.
Qed.

Lemma key_of_particle (pos : SharedArray point) (m : SharedMesh.t) (keys : list Z)
  (c : Z) (x : nat) :
  built_from pos m keys ->
  ((x < length keys)%nat /\ nth x keys 0%Z = c
   <-> exists p, nth_error (full pos) x = Some p /\ particle_cell m p = Ok c).
Proof.
  intros built. split.
  - intros [Hx <-]. destruct (particle_at built Hx) as (p & Hp).
    exists p. split; [exact Hp |].
    destruct (Forall2_nth_error (bf_keys built) _ Hp) as (k & Hk & Hpk).
    now rewrite (nth_error_nth _ _ _ Hk).
  - intros (p & Hp & Hpc).
    destruct (Forall2_nth_error (bf_keys built) _ Hp) as (k & Hk & Hpk).
    split.
    + apply nth_error_Some. congruence.
    + rewrite (nth_error_nth _ _ _ Hk). congruence.
Qed.

(** C5: after construction [cell_offset] is the exclusive prefix sum of
    [cell_count]: both have one entry per cell, [cell_offset[0] = 0],
    [cell_offset[c] = cell_offset[c-1] + cell_count[c-1]] for every cell
    [c > 0], and [cell_offset] never decreases. *)
Theorem cell_offset_prefix_sum (pos : SharedArray point) (R : Z) (m : SharedMesh.t) :
  SharedMesh.init pos R = Ok m ->
  length (SharedMesh.cell_count m) = Z.to_nat (R ^ 3) /\
  length (SharedMesh.cell_offset m) = Z.to_nat (R ^ 3) /\
  nth 0 (SharedMesh.cell_offset m) 0%Z = 0%Z /\
  (forall c : nat, (0 < c < Z.to_nat (R ^ 3))%nat ->
     nth c (SharedMesh.cell_offset m) 0%Z
     = (nth (c - 1) (SharedMesh.cell_offset m) 0 + nth (c - 1) (SharedMesh.cell_count m) 0)%Z) /\
  (forall c c' : nat, (c <= c' < Z.to_nat (R ^ 3))%nat ->
     (nth c (SharedMesh.cell_offset m) 0 <= nth c' (SharedMesh.cell_offset m) 0)%Z).
Proof.
  intros Hinit. destruct (init_built _ _ Hinit) as (keys & built & HR).
  rewrite (bf_offset built), (bf_count built), HR.
  pose proof (bf_resolution built) as H1. rewrite HR in H1.
  assert (Hcells : (0 < Z.to_nat (R ^ 3))%nat).
  { replace (R ^ 3)%Z with (R * R * R)%Z by ring. nia. }
  assert (Hk0 : Forall (fun k => 0 <= k)%Z keys).
  { eapply Forall_impl; [| exact (bf_range built)]. simpl. intros; lia. }
  repeat split.
  - rewrite length_map, length_py_range. f_equal. lia.
  - rewrite length_map, length_py_range. f_equal. lia.
  - rewrite nth_map_range by exact Hcells. now apply count_lt_none.
  - intros c Hc. rewrite !nth_map_range by lia.
    replace (Z.of_nat c) with (Z.of_nat (c - 1) + 1)%Z by lia.
    apply count_lt_succ.
  - intros c c' Hc. rewrite !nth_map_range by lia.
    apply count_lt_mono. lia.
Qed.

(** C3: after construction with N particles [sort_idx] is a permutation of
    [0, N), and for every cell [c] the slice
    [sort_idx[cell_offset[c] : cell_offset[c] + cell_count[c]]] holds, each
    once, exactly the global indices of the particles whose computed cell
    index is [c]. *)
Theorem sort_idx_groups_by_cell (pos : SharedArray point) (R : Z) (m : SharedMesh.t) :
  SharedMesh.init pos R = Ok m ->
  Permutation (SharedMesh.sort_idx m) (seq 0 (length (full pos))) /\
  forall c : Z, (0 <= c < R ^ 3)%Z ->
    exists start cnt,
      getitem (SharedMesh.cell_offset m) c = Ok start /\
      getitem (SharedMesh.cell_count m) c = Ok cnt /\
      NoDup (slice (SharedMesh.sort_idx m) start (start + cnt)) /\
      forall x : nat,
        In x (slice (SharedMesh.sort_idx m) start (start + cnt)) <->
        exists p, nth_error (full pos) x = Some p /\ particle_cell m p = Ok c.
Proof.
  intros Hinit. destruct (init_built _ _ Hinit) as (keys & built & HR).
  pose proof (bf_perm built) as Hperm. split.
  - now rewrite <- (length_keys built).
  - intros c Hc. exists (count_lt c keys), (count c keys).
    rewrite (bf_offset built), (bf_count built), HR.
    split; [apply (getitem_map_range (fun c => count_lt c keys)); exact Hc |].
    split; [apply (getitem_map_range (fun c => count c keys)); exact Hc |].
    split.
    + apply NoDup_slice. exact (@idx_NoDup keys _ Hperm).
    + intros x.
      rewrite (@bucket_members keys _ Hperm (bf_sorted built) c x).
      now apply key_of_particle.
Qed.


End MeshResults.

Section QueryResults.

Import Np.
Context {PS : ParallelSort}.

Lemma in_box_between (pos : SharedArray point) (m : SharedMesh.t) (keys : list Z)
  (qmin qmax p : point) (lo hi c : vec3 Z) :
  built_from pos m keys ->
  mesh_coord m qmin = Ok lo -> mesh_coord m qmax = Ok hi -> mesh_coord m p = Ok c ->
  (forall d : axis, vget d qmin <= vget d p /\ vget d p <= vget d qmax) ->
  between lo hi c.
Proof.
  intros built Hlo Hhi Hc Hbox d. destruct (Hbox d) as [Hl Hh]. split.
  - exact (@cell_coord_mono _ _ _ qmin p lo c d (bf_size built d) Hl Hlo Hc).
  - exact (@cell_coord_mono _ _ _ p qmax c hi d (bf_size built d) Hh Hc Hhi).
Qed.



(** C4 (as amended): with resolution 2 and the particles 0, 1, 2 at
    (0.1,0.1,0.1), (1.9,1.9,1.9), (1.1,0.1,0.1), which lie in the cells 0,
    7, 1, the call [query((0,0,0), (1.5,1.5,1.5))] visits all eight cells
    and returns the indices 0, 1 and 2: on the mesh over the box
    (0,0,0)-(2,2,2) and on the mesh that construction builds from the
    three particles. *)
Theorem scenario_query_returns_all :
  SharedMesh.query scenario_mesh (pt 0 0 0) (pt 1.5 1.5 1.5) = Ok [0; 2; 1]%nat /\
  exists m res,
    SharedMesh.init scenario_pos 2 = Ok m /\
    map (particle_cell m) (full scenario_pos) = [Ok 0; Ok 7; Ok 1]%Z /\
    SharedMesh.cell_count m = SharedMesh.cell_count scenario_mesh /\
    SharedMesh.cell_offset m = SharedMesh.cell_offset scenario_mesh /\
    SharedMesh.query m (pt 0 0 0) (pt 1.5 1.5 1.5) = Ok res /\
    forall x : nat, In x res <-> x = 0%nat \/ x = 1%nat \/ x = 2%nat.
Proof.
  split; [vm_compute; reflexivity |].
  assert (Hex : exists m,
             SharedMesh.init scenario_pos 2 = Ok m /\
             map (particle_cell m) (full scenario_pos) = [Ok 0; Ok 7; Ok 1]%Z /\
             SharedMesh.cell_count m = SharedMesh.cell_count scenario_mesh /\
             SharedMesh.cell_offset m = SharedMesh.cell_offset scenario_mesh /\
             mesh_coord m (pt 0 0 0) = Ok (V3 0 0 0)%Z /\
             mesh_coord m (pt 1.5 1.5 1.5) = Ok (V3 1 1 1)%Z /\
             map (mesh_coord m) (full scenario_pos)
             = [Ok (V3 0 0 0); Ok (V3 1 1 1); Ok (V3 1 0 0)]%Z).
  { eexists. split; [vm_compute; reflexivity |].
    repeat split; vm_compute; reflexivity. }
  destruct Hex as (m & Hinit & Hcells & Hcnt & Hoff & Hlo & Hhi & Hcoord).
  destruct (init_built _ _ Hinit) as (keys & built & HR).
  assert (Hov : (SharedMesh.resolution m ^ 3 <= 2 ^ 31)%Z) by (rewrite HR; vm_compute; discriminate).
  destruct (@query_spec scenario_pos m keys built Hov _ _ _ _ Hlo Hhi) as (res & Hres & Hmem).
  exists m, res. repeat (split; [assumption |]).
  intros x. rewrite Hmem.
  cbn [full scenario_pos parts concat app map] in Hcoord |- *.
  injection Hcoord as H0 H1 H2.
  split.
  - intros (p & c & Hp & _).
    destruct x as [| [| [| x]]]; auto.
    destruct x; discriminate.
  - intros [-> | [-> | ->]]; eexists; eexists;
      (split; [reflexivity |]); (split; [eassumption |]);
      intros []; vm_compute; split; discriminate.
Qed.

Lemma mapM_amin_empty (ps : list (list point)) :
  In [] ps -> mapM SharedMesh.amin ps = Raise ValueError.
Proof.
  induction ps as [| a ps IH]; intros H; [contradiction |].
  destruct H as [-> | H]; [reflexivity |].
  simpl. destruct a as [| p a]; [reflexivity |].
  simpl. now rewrite IH.
Qed.

(** C7 (as amended): when some process holds no particle, in particular
    when there is no particle at all, construction raises [ValueError]
    (the minimum over an empty array) and builds no index. *)
Theorem init_without_particles_raises (pos : SharedArray point) (R : Z) :
  In [] (parts pos) -> SharedMesh.init pos R = Raise ValueError.
Proof.
  intros H. unfold SharedMesh.init. now rewrite mapM_amin_empty.
Qed.

End QueryResults.

(** C4, counter-example: on the mesh of the scenario the query returns
    particle 1, which lies in cell 7. *)
Lemma scenario_query_returns_particle_1 :
  ~ (exists res,
        SharedMesh.query scenario_mesh (pt 0 0 0) (pt 1.5 1.5 1.5) = Ok res /\
        In 0%nat res /\ In 2%nat res /\ ~ In 1%nat res).
Proof.
  intros (res & H & _ & _ & Hn). vm_compute in H. injection H as <-.
  apply Hn. simpl. auto.
Qed.

(** C7, counter-example: construction on one process without particles
    does not return a mesh. *)
Lemma init_empty_fails :
  ~ (exists m, SharedMesh.init empty_pos 2 = Ok m).
Proof. intros (m & H). vm_compute in H. discriminate. Qed.


(** The test of line 149 alone does not decide the result.  With the
    particles (0,0,0), (1.5 + 2^-52, 0, 0) and (3 + 2^-51, 2, 2) at
    resolution 2, particle 1 passes the test for the centre (-1,0,0) and
    the radius 2.5, but it lies in the cell (1,0,0) and the corner
    [centre + radius] lies in x at 1.5, in the cell 0: the loops do not
    visit the cell of particle 1. *)
Lemma query_radius_misses_kept_particle :
  exists m p,
    SharedMesh.init seam_pos 2 = Ok m /\
    SharedMesh.query_radius m edge_centre 2.5 seam_pos = Ok [0]%nat /\
    nth_error (full seam_pos) 1 = Some p /\
    kept edge_centre 2.5 p = true /\
    mesh_coord m p = Ok (V3 1 0 0)%Z.
Proof.
  eexists. eexists.
  split; [vm_compute; reflexivity |].
  split; [vm_compute; reflexivity |].
  split; [reflexivity |].
  split; vm_compute; reflexivity.
Qed.

(** * The dataset name table *)

Section DictFacts.

Import Dict.
Context {V : Type}.

Lemma get_set_same (k : string) (v : V) (d : dict V) : get k (set k v d) = Some v.
Proof.
  induction d as [| [k' v'] d IH]; simpl.
  - now rewrite String.eqb_refl.
  - destruct (String.eqb_spec k k') as [-> | Hne]; simpl.
    + now rewrite String.eqb_refl.
    + destruct (String.eqb_spec k k'); [contradiction | exact IH].
Qed.

Lemma get_set_other (k k' : string) (v : V) (d : dict V) :
  k <> k' -> get k (set k' v d) = get k d.
Proof.
  intros Hne. induction d as [| [k1 v1] d IH]; simpl.
  - destruct (String.eqb_spec k k'); [contradiction | reflexivity].
  - destruct (String.eqb_spec k' k1) as [-> | Hne1]; simpl.
    + destruct (String.eqb_spec k k1); [contradiction | reflexivity].
    + destruct (String.eqb_spec k k1); [reflexivity | exact IH].
Qed.

Lemma get_in_keys (k : string) (v : V) (d : dict V) : get k d = Some v -> In k (keys d).
Proof.
  induction d as [| [k' v'] d IH]; simpl; [discriminate |].
  destruct (String.eqb_spec k k') as [-> | Hne]; auto.
Qed.

Lemma get_none_keys (k : string) (d : dict V) : get k d = None -> ~ In k (keys d).
Proof.
  induction d as [| [k' v'] d IH]; simpl; [tauto |].
  destruct (String.eqb_spec k k') as [-> | Hne]; [discriminate |].
  intros H [E | Hin]; [congruence | now apply IH].
Qed.

(** A run of assignments leaves at a key the value written last; when all
    the writes to the key agree, that is the value of any of them. *)
Lemma fold_set_agree {X : Type} (key : X -> string) (val : X -> V)
  (items : list X) (a : X) (d : dict V) :
  In a items ->
  (forall b, In b items -> key b = key a -> val b = val a) ->
  get (key a) (fold_left (fun dm b => set (key b) (val b) dm) items d) = Some (val a).
Proof.
  intros Hin Hagree.
  assert (Hgen : forall items d,
             (forall b, In b items -> key b = key a -> val b = val a) ->
             (In a items \/ get (key a) d = Some (val a)) ->
             get (key a) (fold_left (fun dm b => set (key b) (val b) dm) items d)
             = Some (val a)).
  { clear. induction items as [| b items IH]; intros d Hagree Hor; simpl.
    - destruct Hor as [[] | H]; exact H.
    - apply IH; [intros c Hc; apply Hagree; now right |].
      destruct (string_dec (key b) (key a)) as [E | Hne].
      + right. rewrite <- E at 1. rewrite get_set_same. f_equal.
        apply Hagree; [now left | exact E].
      + destruct Hor as [[-> | Hin] | Hd]; [contradiction | now left | right].
        rewrite get_set_other by congruence. exact Hd. }
  apply Hgen; auto.
Qed.

End DictFacts.

Section SnapshotResults.

Import Dict SnapshotDatasets.
Local Open Scope string_scope.

Lemma snap_name_inj (P P' d d' : string) :
  has_char "/" P = false -> has_char "/" P' = false ->
  snap_name P d = snap_name P' d' -> P = P' /\ d = d'.
Proof.
  unfold snap_name. revert P'.
  induction P as [| c t IH]; intros [| c' t'] HP HP' E; simpl in *.
  - injection E as ->. auto.
  - injection E as <- _. simpl in HP'. discriminate.
  - injection E as -> _. simpl in HP. discriminate.
  - injection E as <- E.
    apply orb_false_iff in HP, HP'.
    destruct (IH t' (proj2 HP) (proj2 HP') E) as [-> ->]. auto.
Qed.

Lemma fold_left_flat_map {A B C : Type} (f : A -> C -> A) (g : B -> list C)
  (l : list B) (a : A) :
  fold_left f (flat_map g l) a = fold_left (fun a' x => fold_left f (g x) a') l a.
Proof.
  revert a. induction l as [| x l IH]; intros a; simpl; [reflexivity |].
  now rewrite fold_left_app, IH.
Qed.

(** The table of the file names as one run of assignments, one for each
    pair of a group and one of its dataset names. *)
Lemma file_names_flat (datasets : dict (list string)) :
  file_names datasets
  = fold_left (fun dm a => set (snap_name (fst a) (snd a)) a dm)
      (flat_map (fun ptype =>
                   match get ptype datasets with
                   | Some dsets =>
                       map (pair ptype) (dsets ++ ["GroupNr_all"; "GroupNr_bound"])%list
                   | None => []
                   end)
                (keys datasets))
      empty.
Proof.
  unfold file_names. rewrite fold_left_flat_map.
  generalize (@empty (string * string)). generalize (keys datasets).
  induction l as [| ptype l IH]; intros d; simpl; [reflexivity |].
  rewrite <- IH. f_equal.
  destruct (get ptype datasets) as [dsets |]; [| reflexivity].
  generalize (dsets ++ ["GroupNr_all"; "GroupNr_bound"])%list. clear.
  intros L. revert d. induction L as [| x L IH]; intros d; simpl; [reflexivity |].
  apply IH.
Qed.

Lemma file_names_get (datasets : dict (list string)) (P dset : string) (dsets : list string) :
  forallb (fun P' => negb (has_char "/" P')) (keys datasets) = true ->
  get P datasets = Some dsets ->
  In dset (dsets ++ ["GroupNr_all"; "GroupNr_bound"])%list ->
  get (snap_name P dset) (file_names datasets) = Some (P, dset).
Proof.
  intros Hslash HP Hd. rewrite file_names_flat.
  rewrite forallb_forall in Hslash.
  assert (HnoP : forall P', In P' (keys datasets) -> has_char "/" P' = false).
  { intros P' HP'. apply Hslash in HP'. now apply negb_true_iff in HP'. }
  apply (fold_set_agree (fun a => snap_name (fst a) (snd a)) (fun a => a)
                        _ (P, dset)).
  - apply in_flat_map. exists P. split; [eapply get_in_keys; eauto |].
    rewrite HP. now apply in_map.
  - intros [P' d'] Hb E. simpl in E.
    apply in_flat_map in Hb. destruct Hb as (P1 & HP1 & Hb).
    destruct (get P1 datasets); [| contradiction].
    apply in_map_iff in Hb. destruct Hb as (x & Hx & _).
    injection Hx as <- <-.
    destruct (snap_name_inj P1 P x dset) as [-> ->]; auto.
    apply HnoP. eapply get_in_keys; eauto.
Qed.

Lemma alias_step_preserves (aliases : dict string)
  (dm dm' : dict (string * string)) (cols cols' : dict (dict nat))
  (alias K : string) (r : outcome unit) :
  alias <> K ->
  alias_step aliases (dm, cols) alias = (dm', cols', r) ->
  get K dm' = get K dm.
Proof.
  intros Hne. unfold alias_step.
  destruct (unpack2 (split_on "/" alias)) as [[a b] | e |];
    [| intros E; injection E as <- _ _; reflexivity ..].
  destruct (Dict.getitem aliases alias) as [target | e |];
    [| intros E; injection E as <- _ _; reflexivity ..].
  destruct (unpack2 (split_on "/" target)) as [[a' b'] | e |];
    [| intros E; injection E as <- _ _; reflexivity ..].
  intros E. injection E as <- _ _.
  apply get_set_other. congruence.
Qed.

Lemma alias_loop_cons (aliases : dict string)
  (st : dict (string * string) * dict (dict nat)) (alias : string) (todo : list string) :
  alias_loop aliases st (alias :: todo)
  = match alias_step aliases st alias with
    | (st', Ok _) => alias_loop aliases st' todo
    | (st', r) => (st', r)
    end.
Proof. reflexivity. Qed.

Lemma alias_loop_preserves (aliases : dict string) (todo : list string) (K : string) :
  ~ In K todo ->
  forall dm cols dm' cols' r,
    alias_loop aliases (dm, cols) todo = (dm', cols', r) ->
    get K dm' = get K dm.
Proof.
  induction todo as [| alias todo IH]; intros HK dm cols dm' cols' r E.
  - simpl in E. now injection E as <- _ _.
  - rewrite alias_loop_cons in E.
    destruct (alias_step aliases (dm, cols) alias) as [[dm1 cols1] r1] eqn:Estep.
    assert (H1 : get K dm1 = get K dm).
    { eapply alias_step_preserves; [| exact Estep]. intros ->. apply HK. now left. }
    destruct r1 as [u | e |].
    + rewrite <- H1. eapply IH; [| exact E]. intros Hin. apply HK. now right.
    + injection E as <- _ _. exact H1.
    + injection E as <- _ _. exact H1.
Qed.

(** C10 (as amended): after [setup_aliases(aliases)], for every group [P]
    found in the file (group names hold no [/]) and every name [dset] that
    is a dataset of [P] in the file or one of [GroupNr_all] and
    [GroupNr_bound], the dataset map sends ["P/dset"] to [(P, dset)],
    provided ["P/dset"] is not itself the name of an alias. *)
Theorem setup_aliases_file_names (self : SnapshotDatasets.t) (aliases : dict string)
  (P dset : string) (dsets : list string) :
  forallb (fun P' => negb (has_char "/" P')) (keys (datasets_in_file self)) = true ->
  get P (datasets_in_file self) = Some dsets ->
  In dset (dsets ++ ["GroupNr_all"; "GroupNr_bound"])%list ->
  mem (snap_name P dset) aliases = false ->
  exists dmap,
    dataset_map (fst (setup_aliases self aliases)) = Some dmap /\
    get (snap_name P dset) dmap = Some (P, dset).
Proof.
  intros Hslash HP Hd Halias. unfold setup_aliases.
  destruct (alias_loop aliases (file_names (datasets_in_file self), named_columns self)
                       (keys aliases)) as [[dm' cols'] r] eqn:Eloop.
  exists dm'. split; [reflexivity |].
  rewrite (alias_loop_preserves aliases (keys aliases) (snap_name P dset)) with
    (dm := file_names (datasets_in_file self)) (cols := named_columns self)
    (cols' := cols') (r := r); [| | exact Eloop].
  - now apply file_names_get with (dsets := dsets).
  - apply get_none_keys. unfold mem in Halias.
    destruct (get (snap_name P dset) aliases); [discriminate | reflexivity].
Qed.

(** C9: when [name] is not a key of the dataset map, [get_dataset] prints
    the message and the keys of the map, raises [KeyError name] and
    leaves the object as it was; when the map sends [name] to
    [(ptype, dset)] it prints nothing, leaves the object as it was and
    evaluates [data_dict[ptype][dset]]. *)
Theorem get_dataset_spec {A : Type} (self : SnapshotDatasets.t)
  (dmap : dict (string * string)) (name : string) (data_dict : dict (dict A)) :
  dataset_map self = Some dmap ->
  (get name dmap = None ->
   get_dataset self name data_dict
   = (self,
      ("Dataset " ++ quote ++ name ++ quote ++ " not found!")
        :: "Available datasets:"
        :: map (fun key => "  " ++ key) (keys dmap),
      Raise (KeyError name))) /\
  (forall ptype dset, get name dmap = Some (ptype, dset) ->
     get_dataset self name data_dict
     = (self, [], (group <- Dict.getitem data_dict ptype ;; Dict.getitem group dset)%outcome) /\
     forall group v,
       get ptype data_dict = Some group -> get dset group = Some v ->
       get_dataset self name data_dict = (self, [], Ok v)).
Proof.
  intros Hmap. unfold get_dataset. rewrite Hmap. unfold Dict.getitem. split.
  - intros ->. reflexivity.
  - intros ptype dset ->. split; [reflexivity |].
    intros group v -> Hv. cbn [bind]. now rewrite Hv.
Qed.

End SnapshotResults.

(** C10, counter-example: an alias named [PartType0/GroupNr_all] makes the
    dataset map send that name to the target of the alias. *)
Lemma alias_overrides_file_name :
  ~ (exists dmap,
        SnapshotDatasets.dataset_map
          (fst (SnapshotDatasets.setup_aliases scenario_snapshot scenario_aliases))
        = Some dmap /\
        Dict.get "PartType0/GroupNr_all" dmap = Some ("PartType0", "GroupNr_all")%string).
Proof.
  intros (dmap & H & Hget). vm_compute in H. injection H as <-.
  vm_compute in Hget. discriminate.
Qed.

(** * The results on the scenarios *)

(** C5 on the mesh of the three particles. *)
Lemma cell_offset_prefix_sum_witness :
  exists m,
    SharedMesh.init scenario_pos 2 = Ok m /\
    (length (SharedMesh.cell_count m) = Z.to_nat (2 ^ 3) /\
     length (SharedMesh.cell_offset m) = Z.to_nat (2 ^ 3) /\
     nth 0 (SharedMesh.cell_offset m) 0%Z = 0%Z /\
     (forall c : nat, (0 < c < Z.to_nat (2 ^ 3))%nat ->
        nth c (SharedMesh.cell_offset m) 0%Z
        = (nth (c - 1) (SharedMesh.cell_offset m) 0
           + nth (c - 1) (SharedMesh.cell_count m) 0)%Z) /\
     (forall c c' : nat, (c <= c' < Z.to_nat (2 ^ 3))%nat ->
        (nth c (SharedMesh.cell_offset m) 0 <= nth c' (SharedMesh.cell_offset m) 0)%Z)).
Proof.
  eexists. split; [vm_compute; reflexivity |].
  apply (cell_offset_prefix_sum scenario_pos 2). vm_compute. reflexivity.
Defined.

(** C3 on the mesh of the three particles. *)
Lemma sort_idx_groups_by_cell_witness :
  exists m,
    SharedMesh.init scenario_pos 2 = Ok m /\
    (Permutation (SharedMesh.sort_idx m) (seq 0 (length (full scenario_pos))) /\
     forall c : Z, (0 <= c < 2 ^ 3)%Z ->
       exists start cnt,
         Np.getitem (SharedMesh.cell_offset m) c = Ok start /\
         Np.getitem (SharedMesh.cell_count m) c = Ok cnt /\
         NoDup (Np.slice (SharedMesh.sort_idx m) start (start + cnt)) /\
         forall x : nat,
           In x (Np.slice (SharedMesh.sort_idx m) start (start + cnt)) <->
           exists p, nth_error (full scenario_pos) x = Some p /\ particle_cell m p = Ok c).
Proof.
  eexists. split; [vm_compute; reflexivity |].
  apply (sort_idx_groups_by_cell scenario_pos 2). vm_compute. reflexivity.
Defined.




(** C7 on one process without particles. *)
Lemma init_without_particles_raises_witness :
  In [] (parts empty_pos) /\ SharedMesh.init empty_pos 2 = Raise ValueError.
Proof.
  split; [simpl; auto |].
  apply init_without_particles_raises. simpl. auto.
Defined.

(** C10 for [PartType0/GroupNr_bound] beside an alias of another name. *)
Lemma setup_aliases_file_names_witness :
  let aliases := [("PartType0/Mass", "PartType0/Masses")]%string in
  forallb (fun P' => negb (SnapshotDatasets.has_char "/" P'))
          (Dict.keys (SnapshotDatasets.datasets_in_file scenario_snapshot)) = true /\
  Dict.get "PartType0" (SnapshotDatasets.datasets_in_file scenario_snapshot)
    = Some ["Masses"%string] /\
  In "GroupNr_bound"%string
     (["Masses"%string] ++ ["GroupNr_all"%string; "GroupNr_bound"%string])%list /\
  Dict.mem (SnapshotDatasets.snap_name "PartType0" "GroupNr_bound") aliases = false /\
  exists dmap,
    SnapshotDatasets.dataset_map
      (fst (SnapshotDatasets.setup_aliases scenario_snapshot aliases)) = Some dmap /\
    Dict.get (SnapshotDatasets.snap_name "PartType0" "GroupNr_bound") dmap
      = Some ("PartType0", "GroupNr_bound")%string.
Proof.
  cbv zeta.
  split; [reflexivity |]. split; [reflexivity |].
  split; [simpl; auto |]. split; [reflexivity |].
  apply setup_aliases_file_names with (dsets := ["Masses"%string]).
  - reflexivity.
  - reflexivity.
  - simpl. auto.
  - reflexivity.
Defined.

(** C9 for a name that the map does not hold. *)
Lemma get_dataset_spec_witness :
  let dmap := [("PartType0/Masses", ("PartType0", "Masses"))]%string in
  let name := "PartType0/Nope"%string in
  SnapshotDatasets.dataset_map scenario_named = Some dmap /\
  (Dict.get name dmap = None ->
   SnapshotDatasets.get_dataset scenario_named name scenario_data
   = (scenario_named,
      ("Dataset " ++ SnapshotDatasets.quote ++ name ++ SnapshotDatasets.quote
         ++ " not found!")%string
        :: "Available datasets:"%string
        :: map (fun key => ("  " ++ key)%string) (Dict.keys dmap),
      Raise (KeyError name))) /\
  (forall ptype dset, Dict.get name dmap = Some (ptype, dset) ->
     SnapshotDatasets.get_dataset scenario_named name scenario_data
     = (scenario_named, [],
        (group <- Dict.getitem scenario_data ptype ;; Dict.getitem group dset)%outcome) /\
     forall group v,
       Dict.get ptype scenario_data = Some group -> Dict.get dset group = Some v ->
       SnapshotDatasets.get_dataset scenario_named name scenario_data
       = (scenario_named, [], Ok v)).
Proof.
  cbv zeta. split; [reflexivity |].
  apply get_dataset_spec. reflexivity.
Defined.

(** * Further properties of the mesh *)

Section MeshFurther.

Import Np.
Context {PS : ParallelSort}.

Lemma fold_vmin_attained (l : list point) (acc : point) (d : axis) :
  exists p, In p (acc :: l) /\ vget d p = vget d (fold_left (vzip Qmin) l acc).
Proof.
  revert acc. induction l as [| q l IH]; intros acc; simpl.
  - exists acc. auto.
  - destruct (IH (vzip Qmin acc q)) as (p & [<- | Hp] & E).
    + rewrite vget_vzip in E. unfold Qmin, GenericMinMax.gmin in E.
      destruct (vget d acc ?= vget d q); [exists acc | exists acc | exists q]; auto.
    + exists p. auto.
Qed.

Lemma fold_vmax_attained (l : list point) (acc : point) (d : axis) :
  exists p, In p (acc :: l) /\ vget d p = vget d (fold_left (vzip Qmax) l acc).
Proof.
  revert acc. induction l as [| q l IH]; intros acc; simpl.
  - exists acc. auto.
  - destruct (IH (vzip Qmax acc q)) as (p & [<- | Hp] & E).
    + rewrite vget_vzip in E. unfold Qmax, GenericMinMax.gmax in E.
      destruct (vget d acc ?= vget d q); [exists acc | exists q | exists acc]; auto.
    + exists p. auto.
Qed.

Lemma Forall2_in_r {A B : Type} (R : A -> B -> Prop) (l : list A) (r : list B) (b : B) :
  Forall2 R l r -> In b r -> exists a, In a l /\ R a b.
Proof.
  induction 1 as [| x y l r Hxy _ IH]; intros Hin; [contradiction |].
  destruct Hin as [<- | Hin].
  - exists x. split; [now left | exact Hxy].
  - destruct (IH Hin) as (a & Ha & Hab). exists a. split; [now right | exact Hab].
Qed.

(** The geometry that construction stores. *)
Lemma init_box (pos : SharedArray point) (R : Z) (m : SharedMesh.t) :
  SharedMesh.init pos R = Ok m ->
  exists mins maxs,
    mapM SharedMesh.amin (parts pos) = Ok mins /\
    mapM SharedMesh.amax (parts pos) = Ok maxs /\
    all_reduce (vzip Qmin) mins = Ok (SharedMesh.pos_min m) /\
    all_reduce (vzip Qmax) maxs = Ok (SharedMesh.pos_max m) /\
    SharedMesh.cell_size m
    = vmap (fun e => e / inject_Z R)
           (vzip Qminus (SharedMesh.pos_max m) (SharedMesh.pos_min m)).
Proof.
  unfold SharedMesh.init. intros H.
  apply bind_ok_inv in H. destruct H as (mins & Hmins & H).
  apply bind_ok_inv in H. destruct H as (maxs & Hmaxs & H).
  apply bind_ok_inv in H. destruct H as (pmin & Hpmin & H).
  apply bind_ok_inv in H. destruct H as (pmax & Hpmax & H).
  apply bind_ok_inv in H. destruct H as (cell_idx & _ & H).
  apply bind_ok_inv in H. destruct H as (local_count & _ & H).
  apply bind_ok_inv in H. destruct H as (gc & _ & H).
  destruct (negb _); [discriminate |].
  apply bind_ok_inv in H. destruct H as (off & _ & H).
  injection H as <-. exists mins, maxs. auto.
Qed.

(** X2: the box of a built mesh holds every particle of every process,
    and on each axis both of its faces pass through a particle. *)
Theorem bounding_box_tight (pos : SharedArray point) (R : Z) (m : SharedMesh.t) :
  SharedMesh.init pos R = Ok m ->
  (forall p, In p (full pos) -> forall d : axis,
       vget d (SharedMesh.pos_min m) <= vget d p /\
       vget d p <= vget d (SharedMesh.pos_max m)) /\
  (forall d : axis, exists p, In p (full pos) /\ vget d p = vget d (SharedMesh.pos_min m)) /\
  (forall d : axis, exists p, In p (full pos) /\ vget d p = vget d (SharedMesh.pos_max m)).
Proof.
  intros Hinit.
  destruct (init_box _ _ Hinit) as (mins & maxs & Hmins & Hmaxs & Hmin & Hmax & _).
  split; [exact (box_bounds pos Hmins Hmaxs Hmin Hmax) |].
  apply mapM_ok_inv in Hmins. apply mapM_ok_inv in Hmaxs.
  split; intros d.
  - destruct mins as [| mn0 mins']; [discriminate |].
    simpl in Hmin. injection Hmin as Hmin.
    destruct (fold_vmin_attained mins' mn0 d) as (mn & Hmn & E).
    rewrite Hmin in E.
    destruct (Forall2_in_r mn Hmins Hmn) as (part & Hpart & Hamin).
    destruct part as [| q part]; [discriminate |].
    simpl in Hamin. injection Hamin as Hamin.
    destruct (fold_vmin_attained part q d) as (p & Hp & Ep).
    rewrite Hamin in Ep.
    exists p. split; [| congruence].
    unfold full. apply in_concat. eauto.
  - destruct maxs as [| mx0 maxs']; [discriminate |].
    simpl in Hmax. injection Hmax as Hmax.
    destruct (fold_vmax_attained maxs' mx0 d) as (mx & Hmx & E).
    rewrite Hmax in E.
    destruct (Forall2_in_r mx Hmaxs Hmx) as (part & Hpart & Hamax).
    destruct part as [| q part]; [discriminate |].
    simpl in Hamax. injection Hamax as Hamax.
    destruct (fold_vmax_attained part q d) as (p & Hp & Ep).
    rewrite Hamax in Ep.
    exists p. split; [| congruence].
    unfold full. apply in_concat. eauto.
Qed.

Lemma sum_counts (keys : list Z) (n : nat) (a : Z) :
  fold_right Z.add 0%Z (map (fun c => count c keys) (py_range a (a + Z.of_nat n)))
  = (count_lt (a + Z.of_nat n) keys - count_lt a keys)%Z.
Proof.
  revert a. induction n as [| n IH]; intros a.
  - unfold py_range. replace (a + Z.of_nat 0 - a)%Z with 0%Z by lia.
    simpl. replace (a + 0)%Z with a by lia. lia.
  - rewrite py_range_cons by lia. simpl.
    replace (a + Z.pos (Pos.of_succ_nat n))%Z with (a + 1 + Z.of_nat n)%Z by lia.
    rewrite IH, count_lt_succ. lia.
Qed.

Lemma count_lt_all (c : Z) (xs : list Z) :
  Forall (fun x => x < c)%Z xs -> count_lt c xs = Z.of_nat (length xs).
Proof.
  induction 1 as [| x xs Hx _ IH]; [reflexivity |].
  rewrite count_lt_cons, IH. cbn [length].
  destruct (Z.ltb_spec x c); lia.
Qed.

(** X1: the counts of a built mesh are not negative and add up to the
    number of particles, and the slice of every cell lies within
    [sort_idx]. *)
Theorem cell_count_total (pos : SharedArray point) (R : Z) (m : SharedMesh.t) :
  SharedMesh.init pos R = Ok m ->
  Forall (fun n => 0 <= n)%Z (SharedMesh.cell_count m) /\
  fold_right Z.add 0%Z (SharedMesh.cell_count m) = Z.of_nat (length (full pos)) /\
  length (SharedMesh.sort_idx m) = length (full pos) /\
  forall c : nat, (c < Z.to_nat (R ^ 3))%nat ->
    (0 <= nth c (SharedMesh.cell_offset m) 0 /\
     nth c (SharedMesh.cell_offset m) 0 + nth c (SharedMesh.cell_count m) 0
     <= Z.of_nat (length (SharedMesh.sort_idx m)))%Z.
Proof.
  intros Hinit. destruct (init_built _ _ Hinit) as (keys & built & HR).
  pose proof (bf_resolution built) as H1. rewrite HR in H1.
  pose proof (bf_range built) as Hrange. rewrite HR in Hrange.
  assert (Hlen : length (SharedMesh.sort_idx m) = length (full pos)).
  { rewrite (Permutation_length (bf_perm built)), length_seq. apply (length_keys built). }
  rewrite (bf_count built), (bf_offset built), HR, Hlen.
  rewrite <- (length_keys built).
  split; [| split; [| split; [reflexivity |]]].
  - apply Forall_forall. intros n Hn. apply in_map_iff in Hn.
    destruct Hn as (c & <- & _). apply count_nonneg.
  - pose proof (sum_counts keys (Z.to_nat (R ^ 3)) 0) as Hs.
    replace (0 + Z.of_nat (Z.to_nat (R ^ 3)))%Z with (R ^ 3)%Z in Hs
      by (replace (R ^ 3)%Z with (R * R * R)%Z by ring; nia).
    rewrite Hs, count_lt_all, count_lt_none; [lia | |].
    + eapply Forall_impl; [| exact Hrange]. simpl. intros; lia.
    + eapply Forall_impl; [| exact Hrange]. simpl. intros; lia.
  - intros c Hc. rewrite !nth_map_range by exact Hc.
    pose proof (count_lt_nonneg (Z.of_nat c) keys).
    pose proof (count_total (Z.of_nat c) keys). lia.
Qed.

(** X3: construction returns a mesh only for a resolution of at least 1
    and when every process holds a particle. *)
Theorem init_needs_cells_and_particles (pos : SharedArray point) (R : Z) (m : SharedMesh.t) :
  SharedMesh.init pos R = Ok m ->
  (1 <= R)%Z /\ parts pos <> [] /\ Forall (fun part => part <> []) (parts pos).
Proof.
  intros Hinit. destruct (init_built _ _ Hinit) as (keys & built & HR).
  destruct (init_box _ _ Hinit) as (mins & maxs & Hmins & _ & Hmin & _).
  split; [rewrite <- HR; apply (bf_resolution built) |].
  apply mapM_ok_inv in Hmins. split.
  - intros E. rewrite E in Hmins. inversion Hmins; subst. discriminate.
  - clear Hmin. induction Hmins as [| part mn ps ms Hpart _ IH]; constructor; auto.
    intros ->. discriminate.
Qed.

End MeshFurther.

Section CellLists.

Import Np.
Local Open Scope Z_scope.

Lemma NoDup_py_range (a b : Z) : NoDup (py_range a b).
Proof.
  unfold py_range. generalize (Z.to_nat (b - a)) as n. intros n.
  assert (H : forall s, NoDup (map (fun k => a + Z.of_nat k) (seq s n))).
  { induction n as [| n IH]; intros s; simpl; constructor.
    - rewrite in_map_iff. intros (k & E & Hk). apply in_seq in Hk. lia.
    - apply IH. }
  apply H.
Qed.

Lemma NoDup_flat_map {A B : Type} (g : A -> list B) (l : list A) :
  NoDup l ->
  (forall a, In a l -> NoDup (g a)) ->
  (forall a a' b, In a l -> In a' l -> In b (g a) -> In b (g a') -> a = a') ->
  NoDup (flat_map g l).
Proof.
  induction 1 as [| a l Ha Hl IH]; intros Hg Hdis; simpl; [constructor |].
  apply NoDup_app.
  - apply Hg. now left.
  - apply IH.
    + intros a' Ha'. apply Hg. now right.
    + intros a1 a2 b H1 H2. apply Hdis; now right.
  - intros b Hb Hin. apply in_flat_map in Hin. destruct Hin as (a' & Ha' & Hb').
    assert (a = a') by (apply (Hdis a a' b); auto; [now left | now right]).
    subst a'. contradiction.
Qed.

Lemma NoDup_cells_in_range (lo hi : vec3 Z) : NoDup (SharedMesh.cells_in_range lo hi).
Proof.
  unfold SharedMesh.cells_in_range.
  apply NoDup_flat_map; [apply NoDup_py_range | |].
  - intros k _. apply NoDup_flat_map; [apply NoDup_py_range | |].
    + intros j _.
      assert (H : forall l, NoDup l -> NoDup (map (fun i => V3 i j k) l)).
      { induction 1 as [| i l Hi _ IH]; simpl; constructor; [| exact IH].
        rewrite in_map_iff. intros (i' & E & Hi'). injection E as ->. contradiction. }
      apply H, NoDup_py_range.
    + intros j j' c _ _ Hc Hc'. apply in_map_iff in Hc, Hc'.
      destruct Hc as (i & <- & _), Hc' as (i' & E & _). now injection E.
  - intros k k' c _ _ Hc Hc'. apply in_flat_map in Hc, Hc'.
    destruct Hc as (j & _ & Hc), Hc' as (j' & _ & Hc').
    apply in_map_iff in Hc, Hc'.
    destruct Hc as (i & <- & _), Hc' as (i' & E & _). now injection E.
Qed.

(** A box whose upper corner lies below the lower one on some axis
    holds no cell. *)
Lemma cells_in_range_empty (lo hi : vec3 Z) (d : axis) :
  vget d hi < vget d lo -> SharedMesh.cells_in_range lo hi = [].
Proof.
  intros H.
  destruct (SharedMesh.cells_in_range lo hi) as [| c l] eqn:E; [reflexivity |].
  assert (Hc : In c (SharedMesh.cells_in_range lo hi)) by (rewrite E; now left).
  apply in_cells_in_range in Hc. specialize (Hc d). lia.
Qed.

(** Gathering from cells that yield lists without repetition, no element
    belonging to two cells. *)
Lemma collect_NoDup {A X : Type} (f : A -> outcome (list (list X)))
  (P : A -> X -> Prop) (cells : list A) (rs : list (list (list X))) :
  mapM f cells = Ok rs ->
  NoDup cells ->
  (forall c r, In c cells -> f c = Ok r ->
               NoDup (concat r) /\ forall x, In x (concat r) -> P c x) ->
  (forall c c' x, P c x -> P c' x -> c = c') ->
  NoDup (concat (concat rs)).
Proof.
  intros Hrs Hnd Hf Hdis. apply mapM_ok_inv in Hrs.
  assert (Hgen : NoDup (concat (concat rs)) /\
                 forall x, In x (concat (concat rs)) -> exists c, In c cells /\ P c x).
  { induction Hrs as [| c r cells rs Hcr _ IH]; simpl.
    - split; [constructor | contradiction].
    - inversion Hnd as [| ? ? Hc Hnd']; subst.
      destruct IH as [IHnd IHin]; [exact Hnd' | intros; apply Hf; auto; now right |].
      destruct (Hf c r (or_introl eq_refl) Hcr) as [Hr HrP].
      rewrite concat_app. split.
      + apply NoDup_app; [exact Hr | exact IHnd |].
        intros x Hx Hx'. apply IHin in Hx'. destruct Hx' as (c' & Hc' & Hx').
        assert (c = c') by (apply (Hdis c c' x); auto). subst c'. contradiction.
      + intros x Hx. apply in_app_iff in Hx. destruct Hx as [Hx | Hx].
        * exists c. split; [now left | auto].
        * destruct (IHin x Hx) as (c' & Hc' & Hx'). exists c'. split; [now right | auto]. }
  apply Hgen.
Qed.

Lemma NoDup_compress {A : Type} (a : list A) (mask : list bool) :
  NoDup a -> NoDup (SharedMesh.compress a mask).
Proof.
  unfold SharedMesh.compress. intros H. revert mask.
  induction H as [| x a Hx _ IH]; intros mask; simpl; [constructor |].
  destruct mask as [| b mask]; simpl; [constructor |].
  destruct b; simpl; [| apply IH].
  constructor; [| apply IH].
  intros Hin. apply Hx. apply in_map_iff in Hin.
  destruct Hin as ([y b] & <- & Hy). apply filter_In in Hy.
  destruct Hy as [Hy _]. now apply in_combine_l in Hy.
Qed.

Lemma concat_filter {A : Type} (h : A -> bool) (rs : list (list A)) :
  concat (map (filter h) rs) = filter h (concat rs).
Proof.
  induction rs as [| r rs IH]; simpl; [reflexivity |].
  now rewrite filter_app, IH.
Qed.

End CellLists.

Section QueryFurther.

Import Np.
Context {PS : ParallelSort}.

Lemma visit_cell_NoDup (m : SharedMesh.t) (c : vec3 Z) (r : list (list nat)) :
  NoDup (SharedMesh.sort_idx m) -> SharedMesh.visit_cell m c = Ok r -> NoDup (concat r).
Proof.
  intros Hnd H. unfold SharedMesh.visit_cell in H.
  apply bind_ok_inv in H. destruct H as (start & _ & H).
  apply bind_ok_inv in H. destruct H as (cnt & _ & H).
  destruct (0 <? cnt)%Z; injection H as <-; simpl; [| constructor].
  rewrite app_nil_r. now apply NoDup_slice.
Qed.

Lemma built_NoDup (pos : SharedArray point) (m : SharedMesh.t) (keys : list Z) :
  built_from pos m keys -> NoDup (SharedMesh.sort_idx m).
Proof. intros built. exact (@idx_NoDup keys _ (bf_perm built)). Qed.

Lemma built_index_bound (pos : SharedArray point) (m : SharedMesh.t) (keys : list Z) (i : nat) :
  built_from pos m keys -> In i (SharedMesh.sort_idx m) -> (i < length (full pos))%nat.
Proof.
  intros built Hi. rewrite <- (length_keys built).
  now apply (@idx_in keys _ (bf_perm built)).
Qed.

(** The result of [query] on a built mesh: the particles of the cells
    between the corners, each once. *)
Lemma query_spec_NoDup (pos : SharedArray point) (m : SharedMesh.t) (keys : list Z)
  (qmin qmax : point) (lo hi : vec3 Z) :
  built_from pos m keys ->
  (SharedMesh.resolution m ^ 3 <= 2 ^ 31)%Z ->
  mesh_coord m qmin = Ok lo -> mesh_coord m qmax = Ok hi ->
  exists res, SharedMesh.query m qmin qmax = Ok res /\ NoDup res /\
    forall x, In x res <->
      exists p c, nth_error (full pos) x = Some p /\ mesh_coord m p = Ok c /\
                  between lo hi c.
Proof.
  intros built Hov Hlo Hhi.
  destruct (@query_spec pos m keys built Hov qmin qmax lo hi Hlo Hhi) as (res & Hres & Hmem).
  exists res. split; [exact Hres |]. split; [| exact Hmem].
  unfold SharedMesh.query in Hres. unfold mesh_coord in Hlo, Hhi.
  rewrite Hlo, Hhi in Hres. cbn [bind] in Hres.
  apply bind_ok_inv in Hres. destruct Hres as (rs & Hrs & Hres).
  injection Hres as <-.
  apply (collect_NoDup (SharedMesh.visit_cell m)
           (fun c x => exists p, nth_error (full pos) x = Some p /\ mesh_coord m p = Ok c)
           Hrs).
  - apply NoDup_cells_in_range.
  - intros c r Hc Hr. split; [exact (visit_cell_NoDup m c (built_NoDup built) Hr) |].
    apply in_cells_in_range in Hc.
    assert (Hgrid : forall d : axis, (0 <= vget d c <= SharedMesh.resolution m - 1)%Z).
    { apply (@range_in_grid m lo hi c);
        [exact (mesh_coord_range built qmin Hlo) | exact (mesh_coord_range built qmax Hhi)
         | exact Hc]. }
    destruct (@visit_cell_spec pos m keys built Hov c Hgrid) as (r' & Hr' & Hmem').
    rewrite Hr in Hr'. injection Hr' as <-. intros x Hx. now apply Hmem'.
  - intros c c' x (p & Hp & Hc) (p' & Hp' & Hc').
    rewrite Hp in Hp'. injection Hp' as <-. rewrite Hc in Hc'. now injection Hc'.
Qed.

(** X4: on a built mesh [query] returns, each once, exactly the
    particles whose cell coordinates lie between those of the two
    corners on every axis. *)
Theorem query_exact_cells (pos : SharedArray point) (R : Z) (m : SharedMesh.t)
  (qmin qmax : point) (lo hi : vec3 Z) :
  SharedMesh.init pos R = Ok m ->
  (R ^ 3 <= 2 ^ 31)%Z ->
  mesh_coord m qmin = Ok lo ->
  mesh_coord m qmax = Ok hi ->
  exists res, SharedMesh.query m qmin qmax = Ok res /\ NoDup res /\
    forall x : nat, In x res <->
      exists p c, nth_error (full pos) x = Some p /\ mesh_coord m p = Ok c /\
                  between lo hi c.
Proof.
  intros Hinit Hov Hlo Hhi. destruct (init_built _ _ Hinit) as (keys & built & HR).
  rewrite <- HR in Hov. now apply (query_spec_NoDup qmin qmax built).
Qed.


(** X6: a box whose upper corner falls in a lower cell than its lower
    corner on some axis returns the empty array, on any mesh. *)
Theorem query_inverted_box_empty (m : SharedMesh.t) (qmin qmax : point)
  (lo hi : vec3 Z) (d : axis) :
  mesh_coord m qmin = Ok lo ->
  mesh_coord m qmax = Ok hi ->
  (vget d hi < vget d lo)%Z ->
  SharedMesh.query m qmin qmax = Ok [].
Proof.
  intros Hlo Hhi Hd. unfold SharedMesh.query. unfold mesh_coord in Hlo, Hhi.
  rewrite Hlo, Hhi. cbn [bind]. now rewrite (cells_in_range_empty lo hi d Hd).
Qed.

End QueryFurther.

Section QueryCompose.

Import Np.
Context {PS : ParallelSort}.

Lemma floor_div_int32_intro (a b : Q) (z : Z) :
  ~ b == 0 -> a / b == inject_Z z -> (int32_min <= z <= int32_max)%Z ->
  floor_div_int32 a b = Ok z.
Proof.
  intros Hb E Hz. unfold floor_div_int32.
  destruct (Qeq_bool b 0) eqn:Eb; [apply Qeq_bool_iff in Eb; contradiction |].
  rewrite (Qfloor_comp _ _ E), Qfloor_Z.
  destruct (Z.leb_spec int32_min z); [| lia].
  destruct (Z.leb_spec z int32_max); [| lia].
  reflexivity.
Qed.

(** The corners of the box of a built mesh have cell coordinates. *)
Lemma box_corners_defined (pos : SharedArray point) (m : SharedMesh.t) (keys : list Z) :
  built_from pos m keys ->
  (SharedMesh.resolution m ^ 3 <= 2 ^ 31)%Z ->
  (exists lo, mesh_coord m (SharedMesh.pos_min m) = Ok lo) /\
  (exists hi, mesh_coord m (SharedMesh.pos_max m) = Ok hi).
Proof.
  intros built Hov.
  pose proof (bf_resolution built) as H1.
  assert (HR : (SharedMesh.resolution m <= int32_max)%Z).
  { unfold int32_max. replace (SharedMesh.resolution m ^ 3)%Z
      with (SharedMesh.resolution m * SharedMesh.resolution m * SharedMesh.resolution m)%Z
      in Hov by ring. nia. }
  assert (Hne : forall d, ~ vget d (SharedMesh.cell_size m) == 0).
  { intros d E. pose proof (bf_size built d) as Hpos. rewrite E in Hpos.
    now apply Qlt_irrefl in Hpos. }
  split; eexists; unfold mesh_coord.
  - apply (cell_coord_intro _ _ _ _ (V3 0 0 0)%Z). intros d.
    replace (vget d (V3 0 0 0)%Z) with 0%Z by now destruct d.
    apply floor_div_int32_intro; [apply Hne | | unfold int32_min, int32_max; lia].
    unfold Qdiv. setoid_replace (vget d (SharedMesh.pos_min m) - vget d (SharedMesh.pos_min m))
      with 0 by ring. ring.
  - apply (cell_coord_intro _ _ _ _
             (V3 (SharedMesh.resolution m) (SharedMesh.resolution m) (SharedMesh.resolution m))).
    intros d.
    replace (vget d (V3 (SharedMesh.resolution m) (SharedMesh.resolution m)
                        (SharedMesh.resolution m)))
      with (SharedMesh.resolution m) by now destruct d.
    apply floor_div_int32_intro; [apply Hne | | unfold int32_min; lia].
    rewrite <- (bf_extent built d), Qmult_comm. apply Qdiv_mult_l. apply Hne.
Qed.

(** X7: on a built mesh the query over the whole bounding box,
    [query(pos_min, pos_max)], returns every particle exactly once. *)
Theorem query_whole_box (pos : SharedArray point) (R : Z) (m : SharedMesh.t) :
  SharedMesh.init pos R = Ok m ->
  (R ^ 3 <= 2 ^ 31)%Z ->
  exists res,
    SharedMesh.query m (SharedMesh.pos_min m) (SharedMesh.pos_max m) = Ok res /\
    Permutation res (seq 0 (length (full pos))).
Proof.
  intros Hinit Hov. destruct (init_built _ _ Hinit) as (keys & built & HR).
  rewrite <- HR in Hov.
  destruct (box_corners_defined built Hov) as [(lo & Hlo) (hi & Hhi)].
  destruct (query_spec_NoDup _ _ built Hov Hlo Hhi) as (res & Hres & Hnd & Hmem).
  exists res. split; [exact Hres |].
  apply NoDup_Permutation; [exact Hnd | apply seq_NoDup |].
  intros x. rewrite Hmem, in_seq. split.
  - intros (p & c & Hp & _).
    assert (x < length (full pos))%nat by (apply nth_error_Some; congruence). lia.
  - intros [_ Hx]. simpl in Hx.
    destruct (nth_error (full pos) x) as [p |] eqn:Hp;
      [| apply nth_error_None in Hp; lia].
    destruct (@particle_key pos m keys built Hov x p Hp) as (c & Hc & _).
    exists p, c. split; [reflexivity |]. split; [exact Hc |].
    apply (@in_box_between pos m keys _ _ p lo hi c built Hlo Hhi Hc).
    intros d. apply (bf_box built). eapply nth_error_In; eauto.
Qed.

Lemma mapM_related {A X : Type} (f g : A -> outcome (list (list X))) (h : X -> bool)
  (cells : list A) (rs : list (list (list X))) :
  mapM f cells = Ok rs ->
  (forall c r, In c cells -> f c = Ok r ->
               exists r', g c = Ok r' /\ concat r' = filter h (concat r)) ->
  exists rs', mapM g cells = Ok rs' /\
              concat (concat rs') = filter h (concat (concat rs)).
Proof.
  intros Hrs. apply mapM_ok_inv in Hrs.
  induction Hrs as [| c r cells rs Hcr _ IH]; intros Hfg.
  - exists []. split; reflexivity.
  - destruct (Hfg c r (or_introl eq_refl) Hcr) as (r' & Hr' & E).
    destruct IH as (rs' & Hrs' & Es); [intros; apply Hfg; auto; now right |].
    exists (r' :: rs'). split.
    + simpl. rewrite Hr'. simpl. rewrite Hrs'. reflexivity.
    + simpl. rewrite !concat_app, filter_app, E, Es. reflexivity.
Qed.

(** Whether the particle [i] of [pos_full] passes the test of line 149. *)
Let near (pos_full : list point) (centre : point) (radius : Q) (i : nat) : bool :=
  match nth_error pos_full i with
  | Some p => kept centre radius p
  | None => false
  end.

Lemma visit_cell_radius_filters (m : SharedMesh.t) (centre : point) (radius : Q)
  (pos_full : list point) (c : vec3 Z) (r : list (list nat)) :
  (forall i, In i (SharedMesh.sort_idx m) -> (i < length pos_full)%nat) ->
  SharedMesh.visit_cell m c = Ok r ->
  exists r', SharedMesh.visit_cell_radius m centre radius pos_full c = Ok r' /\
             concat r' = filter (near pos_full centre radius) (concat r).
Proof.
  intros Hidx H. unfold SharedMesh.visit_cell in H. unfold SharedMesh.visit_cell_radius.
  apply bind_ok_inv in H. destruct H as (start & Hstart & H).
  apply bind_ok_inv in H. destruct H as (cnt & Hcnt & H).
  rewrite Hstart, Hcnt. cbn [bind].
  destruct (0 <? cnt)%Z; injection H as <-; [| exists []; split; reflexivity].
  set (l := slice (SharedMesh.sort_idx m) start (start + cnt)).
  set (rr := Binary64.mul (Binary64.of_Q radius) (Binary64.of_Q radius)).
  set (g := fun i : nat => SharedMesh.dist2 (nth i pos_full (V3 0 0 0)) centre).
  set (h := fun i : nat => Binary64.leb (g i) rr).
  assert (Hl : forall i, In i l -> exists p, nth_error pos_full i = Some p).
  { intros i Hi. destruct (slice_sublist (SharedMesh.sort_idx m) start (start + cnt))
      as (pre & post & E).
    assert (Hin : In i (SharedMesh.sort_idx m)).
    { rewrite E. apply in_or_app. right. apply in_or_app. now left. }
    apply Hidx in Hin.
    destruct (nth_error pos_full i) as [p |] eqn:Hp; [eauto |].
    apply nth_error_None in Hp. lia. }
  assert (Hh : filter h l = filter (near pos_full centre radius) l).
  { apply filter_ext_in. intros i Hi. destruct (Hl i Hi) as (p & Hp).
    unfold h, g, near, kept. fold rr. now rewrite Hp, (nth_error_nth _ _ _ Hp). }
  rewrite (mapM_pure _ g).
  - cbn [bind]. rewrite map_map. fold h. rewrite filter_id_map, compress_map.
    cbn [concat]. rewrite app_nil_r, <- Hh.
    destruct (Nat.ltb_spec 0 (length (filter h l))) as [Hsome | Hnone].
    + eexists. split; [reflexivity |]. cbn [concat]. now rewrite app_nil_r.
    + exists []. split; [reflexivity |].
      destruct (filter h l); [reflexivity | simpl in Hnone; lia].
  - intros i Hi. destruct (Hl i Hi) as (p & Hp).
    rewrite (getitem_nat _ _ Hp). cbn [bind]. unfold g.
    now rewrite (nth_error_nth _ _ _ Hp).
Qed.

(** X8: on a built mesh, with [qmin] and [qmax] the corners
    [centre - radius] and [centre + radius] as lines 124-125 compute them
    in binary64, [query_radius(centre, radius, pos)] returns the result
    of [query(qmin, qmax)] with the particles removed that fail the test
    of lines 148-149 (the binary64 sum of squares [r2] is not at most the
    binary64 product [radius*radius]), the others in the same order. *)
Theorem query_radius_filters_query (pos : SharedArray point) (R : Z) (m : SharedMesh.t)
  (centre : point) (radius : Q) (qmin qmax : point) (res : list nat) :
  SharedMesh.init pos R = Ok m ->
  corners centre radius qmin qmax ->
  SharedMesh.query m qmin qmax = Ok res ->
  SharedMesh.query_radius m centre radius pos
  = Ok (filter (fun i => match nth_error (full pos) i with
                         | Some p => kept centre radius p
                         | None => false
                         end) res).
Proof.
  intros Hinit [Hqmin Hqmax] Hres. destruct (init_built _ _ Hinit) as (keys & built & _).
  unfold SharedMesh.query in Hres. unfold SharedMesh.query_radius.
  rewrite Hqmin, Hqmax. cbn [bind].
  apply bind_ok_inv in Hres. destruct Hres as (lo & Hlo & Hres).
  apply bind_ok_inv in Hres. destruct Hres as (hi & Hhi & Hres).
  apply bind_ok_inv in Hres. destruct Hres as (rs & Hrs & Hres).
  injection Hres as <-. rewrite Hlo, Hhi. cbn [bind].
  destruct (mapM_related (SharedMesh.visit_cell m)
              (SharedMesh.visit_cell_radius m centre radius (full pos))
              (near (full pos) centre radius) _ Hrs) as (rs' & Hrs' & E).
  { intros c r _ Hr. apply visit_cell_radius_filters; [| exact Hr].
    intros i Hi. exact (built_index_bound i built Hi). }
  rewrite Hrs'. cbn [bind]. rewrite E. reflexivity.
Qed.

End QueryCompose.

(** ** The mesh does not depend on the distribution over the processes *)

Section Distribution.

Import Np.
Context {PS : ParallelSort}.

Lemma Qmin_assoc (a b c : Q) : Qmin (Qmin a b) c = Qmin a (Qmin b c).
Proof.
  unfold Qmin, GenericMinMax.gmin.
  destruct (a ?= b) eqn:Eab; destruct (b ?= c) eqn:Ebc;
    rewrite ?Eab, ?Ebc; try reflexivity;
    destruct (a ?= c) eqn:Eac; try reflexivity;
    rewrite <- ?Qeq_alt, <- ?Qlt_alt, <- ?Qgt_alt in *; lra.
Qed.

Lemma Qmax_assoc (a b c : Q) : Qmax (Qmax a b) c = Qmax a (Qmax b c).
Proof.
  unfold Qmax, GenericMinMax.gmax.
  destruct (a ?= b) eqn:Eab; destruct (b ?= c) eqn:Ebc;
    rewrite ?Eab, ?Ebc; try reflexivity;
    destruct (a ?= c) eqn:Eac; try reflexivity;
    rewrite <- ?Qeq_alt, <- ?Qlt_alt, <- ?Qgt_alt in *; lra.
Qed.

Variable f : point -> point -> point.
Hypothesis f_assoc : forall a b c, f (f a b) c = f a (f b c).

(** The reduction of a list that is not empty. *)
Let reduce (l : list point) : outcome point :=
  match l with
  | [] => Raise ValueError
  | p :: l' => Ok (fold_left f l' p)
  end.

Lemma fold_left_assoc (l : list point) (a b : point) :
  fold_left f l (f a b) = f a (fold_left f l b).
Proof.
  revert b. induction l as [| q l IH]; intros b; simpl; [reflexivity |].
  now rewrite f_assoc, IH.
Qed.

Lemma reduce_app (l1 l2 : list point) (g1 g2 : point) :
  reduce l1 = Ok g1 -> reduce l2 = Ok g2 -> reduce (l1 ++ l2) = Ok (f g1 g2).
Proof.
  destruct l1 as [| p l1]; [discriminate |].
  destruct l2 as [| q l2]; [discriminate |].
  simpl. intros H1 H2. injection H1 as <-. injection H2 as <-.
  rewrite fold_left_app. simpl. now rewrite fold_left_assoc.
Qed.

(** Reducing the local results of the processes gives the reduction of
    all the particles. *)
Lemma reduce_parts (ps : list (list point)) (locals : list point) (g : point) :
  Forall2 (fun part r => reduce part = Ok r) ps locals ->
  reduce locals = Ok g -> reduce (concat ps) = Ok g.
Proof.
  intros H. revert g. induction H as [| part r ps locals Hpart Hrest IH]; intros g Hg.
  - discriminate.
  - simpl in Hg. injection Hg as <-. simpl.
    destruct locals as [| r' locals'].
    + inversion Hrest; subst. simpl. now rewrite app_nil_r.
    + simpl. rewrite fold_left_assoc.
      apply reduce_app; [exact Hpart |]. apply IH. reflexivity.
Qed.

End Distribution.

Section DistributionResults.

Import Np.
Context {PS : ParallelSort}.

Lemma vmin_assoc (a b c : point) :
  vzip Qmin (vzip Qmin a b) c = vzip Qmin a (vzip Qmin b c).
Proof. unfold vzip. simpl. now rewrite !Qmin_assoc. Qed.

Lemma vmax_assoc (a b c : point) :
  vzip Qmax (vzip Qmax a b) c = vzip Qmax a (vzip Qmax b c).
Proof. unfold vzip. simpl. now rewrite !Qmax_assoc. Qed.

(** The box of a built mesh is the reduction of the global array. *)
Lemma init_box_global (pos : SharedArray point) (R : Z) (m : SharedMesh.t) :
  SharedMesh.init pos R = Ok m ->
  SharedMesh.amin (full pos) = Ok (SharedMesh.pos_min m) /\
  SharedMesh.amax (full pos) = Ok (SharedMesh.pos_max m).
Proof.
  intros Hinit.
  destruct (init_box _ _ Hinit) as (mins & maxs & Hmins & Hmaxs & Hmin & Hmax & _).
  apply mapM_ok_inv in Hmins. apply mapM_ok_inv in Hmaxs. split.
  - apply (@reduce_parts (vzip Qmin) vmin_assoc (parts pos) mins _ Hmins).
    destruct mins; [discriminate | exact Hmin].
  - apply (@reduce_parts (vzip Qmax) vmax_assoc (parts pos) maxs _ Hmaxs).
    destruct maxs; [discriminate | exact Hmax].
Qed.

Lemma Forall2_functional {A B : Type} (g : A -> outcome B) (l : list A) (r r' : list B) :
  Forall2 (fun a b => g a = Ok b) l r -> Forall2 (fun a b => g a = Ok b) l r' -> r = r'.
Proof.
  intros H. revert r'. induction H as [| a b l r Hab _ IH]; intros r' H'.
  - now inversion H'.
  - inversion H' as [| ? b' ? r0 Hab' Hrest]; subst.
    rewrite Hab in Hab'. injection Hab' as <-. f_equal. now apply IH.
Qed.

(** X9: two meshes built at the same resolution from the same global
    array of positions, distributed over the processes in two ways, have
    the same box, cell size, counts and offsets. *)
Theorem mesh_independent_of_distribution (pos pos' : SharedArray point) (R : Z)
  (m m' : SharedMesh.t) :
  full pos = full pos' ->
  SharedMesh.init pos R = Ok m ->
  SharedMesh.init pos' R = Ok m' ->
  SharedMesh.pos_min m = SharedMesh.pos_min m' /\
  SharedMesh.pos_max m = SharedMesh.pos_max m' /\
  SharedMesh.cell_size m = SharedMesh.cell_size m' /\
  SharedMesh.cell_count m = SharedMesh.cell_count m' /\
  SharedMesh.cell_offset m = SharedMesh.cell_offset m'.
Proof.
  intros Hfull Hinit Hinit'.
  destruct (init_box_global _ _ Hinit) as [Hmin Hmax].
  destruct (init_box_global _ _ Hinit') as [Hmin' Hmax'].
  rewrite Hfull, Hmin' in Hmin. injection Hmin as Emin.
  rewrite Hfull, Hmax' in Hmax. injection Hmax as Emax.
  destruct (init_box _ _ Hinit) as (_ & _ & _ & _ & _ & _ & Hcs).
  destruct (init_box _ _ Hinit') as (_ & _ & _ & _ & _ & _ & Hcs').
  assert (Ecs : SharedMesh.cell_size m = SharedMesh.cell_size m')
    by (rewrite Hcs, Hcs'; congruence).
  destruct (init_built _ _ Hinit) as (keys & built & HR).
  destruct (init_built _ _ Hinit') as (keys' & built' & HR').
  assert (Ekeys : keys = keys').
  { apply (Forall2_functional (particle_cell m) (bf_keys built)).
    pose proof (bf_keys built') as Hk. rewrite <- Hfull in Hk.
    eapply Forall2_impl; [| exact Hk]. intros p k Hpk.
    unfold particle_cell in *. rewrite <- Emin, Ecs, HR, <- HR'. exact Hpk. }
  repeat split; auto.
  - rewrite (bf_count built), (bf_count built'), Ekeys, HR, HR'. reflexivity.
  - rewrite (bf_offset built), (bf_offset built'), Ekeys, HR, HR'. reflexivity.
Qed.

(** X10: a query on two meshes built from the same global array of
    positions, distributed in two ways, returns the same particles. *)
Theorem query_independent_of_distribution (pos pos' : SharedArray point) (R : Z)
  (m m' : SharedMesh.t) (qmin qmax : point) (res res' : list nat) :
  full pos = full pos' ->
  SharedMesh.init pos R = Ok m ->
  SharedMesh.init pos' R = Ok m' ->
  (R ^ 3 <= 2 ^ 31)%Z ->
  SharedMesh.query m qmin qmax = Ok res ->
  SharedMesh.query m' qmin qmax = Ok res' ->
  Permutation res res'.
Proof.
  intros Hfull Hinit Hinit' Hov Hres Hres'.
  destruct (init_box_global _ _ Hinit) as [Hmin _].
  destruct (init_box_global _ _ Hinit') as [Hmin' _].
  rewrite Hfull, Hmin' in Hmin. injection Hmin as Emin.
  destruct (init_box_global _ _ Hinit) as [_ Hmax].
  destruct (init_box_global _ _ Hinit') as [_ Hmax'].
  rewrite Hfull, Hmax' in Hmax. injection Hmax as Emax.
  destruct (init_box _ _ Hinit) as (_ & _ & _ & _ & _ & _ & Hcs).
  destruct (init_box _ _ Hinit') as (_ & _ & _ & _ & _ & _ & Hcs').
  assert (Ecs : SharedMesh.cell_size m = SharedMesh.cell_size m')
    by (rewrite Hcs, Hcs'; congruence).
  destruct (init_built _ _ Hinit) as (keys & built & HR).
  destruct (init_built _ _ Hinit') as (keys' & built' & HR').
  assert (Ecoord : forall p, mesh_coord m' p = mesh_coord m p).
  { intros p. unfold mesh_coord. now rewrite Emin, <- Ecs, HR', <- HR. }
  pose proof Hres as H. unfold SharedMesh.query in H.
  apply bind_ok_inv in H. destruct H as (lo & Hlo & H).
  apply bind_ok_inv in H. destruct H as (hi & Hhi & _).
  assert (Hov1 : (SharedMesh.resolution m ^ 3 <= 2 ^ 31)%Z) by now rewrite HR.
  assert (Hov2 : (SharedMesh.resolution m' ^ 3 <= 2 ^ 31)%Z) by now rewrite HR'.
  destruct (query_spec_NoDup qmin qmax built Hov1 Hlo Hhi) as (r & Hr & Hnd & Hmem).
  assert (Hlo' : mesh_coord m' qmin = Ok lo) by (rewrite Ecoord; exact Hlo).
  assert (Hhi' : mesh_coord m' qmax = Ok hi) by (rewrite Ecoord; exact Hhi).
  destruct (query_spec_NoDup qmin qmax built' Hov2 Hlo' Hhi') as (r' & Hr' & Hnd' & Hmem').
  rewrite Hres in Hr. injection Hr as <-. rewrite Hres' in Hr'. injection Hr' as <-.
  apply NoDup_Permutation; [exact Hnd | exact Hnd' |].
  intros x. rewrite Hmem, Hmem', <- Hfull. split.
  - intros (p & c & Hp & Hc & Hb). exists p, c. rewrite Ecoord. auto.
  - intros (p & c & Hp & Hc & Hb). exists p, c. rewrite <- Ecoord. auto.
Qed.

End DistributionResults.

(** ** A box of zero extent *)

Section FlatBox.

Import Np.
Context {PS : ParallelSort}.









End FlatBox.



(** * Further properties of the dataset name table *)

Section Splitting.

Import Dict SnapshotDatasets.
Local Open Scope string_scope.

Lemma split_on_cons (sep : ascii) (s : string) :
  exists w ws, split_on sep s = w :: ws.
Proof.
  induction s as [| c s (w & ws & IH)]; simpl; [eauto |].
  destruct (Ascii.eqb c sep); [eauto |]. rewrite IH. eauto.
Qed.

Lemma length_split_on (sep : ascii) (s : string) :
  length (split_on sep s) = S (count_char sep s).
Proof.
  induction s as [| c s IH]; simpl; [reflexivity |].
  rewrite (Ascii.eqb_sym sep c).
  destruct (Ascii.eqb c sep); simpl; [now rewrite IH |].
  destruct (split_on_cons sep s) as (w & ws & E). rewrite E in *. exact IH.
Qed.

Lemma unpack2_length (l : list string) :
  unpack2 l = (if (length l =? 2)%nat
               then Ok (nth 0 l EmptyString, nth 1 l EmptyString)
               else Raise ValueError).
Proof. destruct l as [| a [| b [| c l]]]; reflexivity. Qed.

(** Unpacking the parts of a name into two succeeds exactly when the
    name holds one separator. *)
Lemma unpack2_split (s : string) :
  unpack2 (split_on "/" s)
  = (if (count_char "/" s =? 1)%nat
     then Ok (nth 0 (split_on "/" s) EmptyString, nth 1 (split_on "/" s) EmptyString)
     else Raise ValueError).
Proof.
  rewrite unpack2_length, length_split_on. reflexivity.
Qed.

Lemma has_char_count (c : ascii) (s : string) :
  has_char c s = false <-> count_char c s = 0%nat.
Proof.
  induction s as [| c' s IH]; simpl; [tauto |].
  destruct (Ascii.eqb c c'); simpl; [split; [discriminate | lia] | exact IH].
Qed.

Lemma split_on_none (sep : ascii) (s : string) :
  has_char sep s = false -> split_on sep s = [s].
Proof.
  induction s as [| c s IH]; simpl; [reflexivity |].
  rewrite (Ascii.eqb_sym sep c). intros H. apply orb_false_iff in H.
  destruct H as [Hc Hs]. rewrite Hc, (IH Hs). reflexivity.
Qed.

Lemma split_on_snap_name (P d : string) :
  has_char "/" P = false -> has_char "/" d = false ->
  split_on "/" (snap_name P d) = [P; d].
Proof.
  unfold snap_name. intros HP Hd. induction P as [| c t IH].
  - cbn [append split_on]. rewrite Ascii.eqb_refl.
    now rewrite (split_on_none "/" d Hd).
  - change (has_char "/" (String c t)) with (Ascii.eqb "/" c || has_char "/" t)%bool in HP.
    rewrite (Ascii.eqb_sym "/" c) in HP.
    apply orb_false_iff in HP. destruct HP as [Hc Ht].
    cbn [append split_on]. cbn [append] in IH. rewrite Hc, (IH Ht). reflexivity.
Qed.

(** X11: the name that line 24 builds for a group and a dataset splits
    back, as in lines 27-28, into the group and the dataset, and joining
    the parts of any name with the separator gives the name back. *)
Theorem snap_name_round_trip (P d s : string) :
  (has_char "/" P = false -> has_char "/" d = false ->
   unpack2 (split_on "/" (snap_name P d)) = Ok (P, d)) /\
  String.concat "/" (split_on "/" s) = s /\
  length (split_on "/" s) = S (count_char "/" s).
Proof.
  split; [| split].
  - intros HP Hd. now rewrite split_on_snap_name.
  - induction s as [| c s IH]; [reflexivity |].
    cbn [split_on].
    destruct (split_on_cons "/" s) as (w & ws & E). rewrite E in *.
    destruct (Ascii.eqb c "/") eqn:Ec.
    + apply Ascii.eqb_eq in Ec. subst c.
      change (String "/" (String.concat "/" (w :: ws)) = String "/" s).
      now rewrite IH.
    + destruct ws as [| w' ws].
      * change (String c w = String c s). now rewrite <- IH.
      * change (String c (w ++ "/" ++ String.concat "/" (w' :: ws)) = String c s).
        now rewrite <- IH.
  - apply length_split_on.
Qed.

End Splitting.

Section AliasLoop.

Import Dict SnapshotDatasets.
Local Open Scope string_scope.

Lemma in_keys_get {V : Type} (k : string) (d : dict V) :
  In k (keys d) -> exists v, get k d = Some v.
Proof.
  induction d as [| [k' v'] d IH]; simpl; [contradiction |].
  destruct (String.eqb_spec k k') as [-> | Hne]; [eauto |].
  intros [E | H]; [congruence | auto].
Qed.

(** One turn of the loop over the aliases, for an alias of the table. *)
Lemma alias_step_eq (aliases : dict string) (dm : dict (string * string))
  (cols : dict (dict nat)) (alias target : string) :
  get alias aliases = Some target ->
  alias_step aliases (dm, cols) alias
  = if ((count_char "/" alias =? 1)%nat && (count_char "/" target =? 1)%nat)%bool
    then (set alias (nth 0 (split_on "/" target) EmptyString,
                     nth 1 (split_on "/" target) EmptyString) dm,
          match get (nth 1 (split_on "/" target) EmptyString) cols with
          | Some c => if mem (nth 1 (split_on "/" alias) EmptyString) cols then cols
                      else set (nth 1 (split_on "/" alias) EmptyString) c cols
          | None => cols
          end,
          Ok tt)
    else (dm, cols, Raise ValueError).
Proof.
  intros Hget. unfold alias_step. rewrite unpack2_split.
  destruct (count_char "/" alias =? 1)%nat; [| reflexivity].
  unfold Dict.getitem. rewrite Hget, unpack2_split.
  destruct (count_char "/" target =? 1)%nat; reflexivity.
Qed.

Lemma alias_loop_outcome (aliases : dict string) (todo : list string) :
  (forall a, In a todo -> In a (keys aliases)) ->
  forall st,
    snd (alias_loop aliases st todo)
    = if forallb (well_formed_alias aliases) todo then Ok tt else Raise ValueError.
Proof.
  induction todo as [| alias todo IH]; intros Hin [dm cols]; [reflexivity |].
  rewrite alias_loop_cons.
  destruct (in_keys_get alias aliases (Hin alias (or_introl eq_refl))) as (target & Hget).
  rewrite (alias_step_eq aliases dm cols alias Hget).
  cbn [forallb]. unfold well_formed_alias at 1. rewrite Hget.
  destruct ((count_char "/" alias =? 1)%nat && (count_char "/" target =? 1)%nat)%bool;
    [| reflexivity].
  cbn [andb]. apply IH. intros a Ha. apply Hin. now right.
Qed.

(** X12: [setup_aliases(aliases)] returns normally when every alias name
    and every alias target holds exactly one [/], and raises [ValueError]
    otherwise. *)
Theorem setup_aliases_outcome (self : SnapshotDatasets.t) (aliases : dict string) :
  snd (setup_aliases self aliases)
  = if forallb (fun alias =>
                  (count_char "/" alias =? 1)%nat
                  && match get alias aliases with
                     | Some target => (count_char "/" target =? 1)%nat
                     | None => false
                     end)
               (keys aliases)
    then Ok tt else Raise ValueError.
Proof.
  unfold setup_aliases.
  pose proof (alias_loop_outcome aliases (keys aliases) (fun a H => H)
                (file_names (datasets_in_file self), named_columns self)) as H.
  destruct (alias_loop aliases (file_names (datasets_in_file self), named_columns self)
                       (keys aliases)) as [[dm' cols'] r].
  exact H.
Qed.

(** A turn of the loop keeps the column tables that exist. *)
Lemma alias_step_keeps_columns (aliases : dict string) (dm dm' : dict (string * string))
  (cols cols' : dict (dict nat)) (alias k : string) (v : dict nat) (r : outcome unit) :
  alias_step aliases (dm, cols) alias = (dm', cols', r) ->
  get k cols = Some v -> get k cols' = Some v.
Proof.
  unfold alias_step.
  destruct (unpack2 (split_on "/" alias)) as [[a b] | e |];
    [| intros E; injection E as _ <- _; auto ..].
  destruct (Dict.getitem aliases alias) as [target | e |];
    [| intros E; injection E as _ <- _; auto ..].
  destruct (unpack2 (split_on "/" target)) as [[a' b'] | e |];
    [| intros E; injection E as _ <- _; auto ..].
  intros E Hk. injection E as _ <- _.
  destruct (get b' cols) as [c |]; [| exact Hk].
  unfold mem. destruct (get b cols) as [c0 |] eqn:Eb; [exact Hk |].
  rewrite get_set_other; [exact Hk |]. intros ->. congruence.
Qed.

Lemma alias_loop_keeps_columns (aliases : dict string) (todo : list string)
  (k : string) (v : dict nat) :
  forall dm cols dm' cols' r,
    alias_loop aliases (dm, cols) todo = (dm', cols', r) ->
    get k cols = Some v -> get k cols' = Some v.
Proof.
  induction todo as [| alias todo IH]; intros dm cols dm' cols' r E Hk.
  - simpl in E. now injection E as _ <- _.
  - rewrite alias_loop_cons in E.
    destruct (alias_step aliases (dm, cols) alias) as [[dm1 cols1] r1] eqn:Estep.
    pose proof (@alias_step_keeps_columns aliases dm dm1 cols cols1 alias k v r1 Estep Hk) as H1.
    destruct r1 as [u | e |].
    + eapply IH; eauto.
    + injection E as _ <- _. exact H1.
    + injection E as _ <- _. exact H1.
Qed.

Lemma setup_columns_kept (self : SnapshotDatasets.t) (aliases : dict string)
  (dset : string) (cols : dict nat) :
  get dset (named_columns self) = Some cols ->
  get dset (named_columns (fst (setup_aliases self aliases))) = Some cols.
Proof.
  unfold setup_aliases.
  destruct (alias_loop aliases (file_names (datasets_in_file self), named_columns self)
                       (keys aliases)) as [[dm' cols'] r] eqn:Eloop.
  intros Hk. simpl.
  exact (@alias_loop_keeps_columns aliases (keys aliases) dset cols _ _ _ _ _ Eloop Hk).
Qed.

(** X13: [setup_aliases] leaves [datasets_in_file] as it is and never
    replaces or removes the column table of a dataset: it only adds
    tables for names that had none. *)
Theorem setup_aliases_keeps_columns (self : SnapshotDatasets.t) (aliases : dict string) :
  datasets_in_file (fst (setup_aliases self aliases)) = datasets_in_file self /\
  forall dset cols,
    get dset (named_columns self) = Some cols ->
    get dset (named_columns (fst (setup_aliases self aliases))) = Some cols.
Proof.
  split; [| intros dset cols; apply setup_columns_kept].
  unfold setup_aliases.
  destruct (alias_loop aliases (file_names (datasets_in_file self), named_columns self)
                       (keys aliases)) as [[dm' cols'] r].
  reflexivity.
Qed.

End AliasLoop.

Section AliasResults.

Import Dict SnapshotDatasets.
Local Open Scope string_scope.

Lemma alias_loop_target (aliases : dict string) (K target : string) (todo : list string) :
  get K aliases = Some target ->
  (forall a, In a todo -> In a (keys aliases)) ->
  forall dm cols dm' cols',
    alias_loop aliases (dm, cols) todo = (dm', cols', Ok tt) ->
    In K todo \/ get K dm = Some (nth 0 (split_on "/" target) EmptyString,
                                  nth 1 (split_on "/" target) EmptyString) ->
    get K dm' = Some (nth 0 (split_on "/" target) EmptyString,
                      nth 1 (split_on "/" target) EmptyString).
Proof.
  intros HK. induction todo as [| alias todo IH]; intros Hin dm cols dm' cols' E Hor.
  - simpl in E. injection E as <- _. destruct Hor as [[] | H]; exact H.
  - rewrite alias_loop_cons in E.
    destruct (in_keys_get alias aliases (Hin alias (or_introl eq_refl))) as (t & Hget).
    rewrite (alias_step_eq aliases dm cols alias Hget) in E.
    destruct ((count_char "/" alias =? 1)%nat && (count_char "/" t =? 1)%nat)%bool;
      [| discriminate].
    eapply IH; [intros a Ha; apply Hin; now right | exact E |].
    destruct (string_dec alias K) as [-> | Hne].
    + right. rewrite HK in Hget. injection Hget as <-. apply get_set_same.
    + destruct Hor as [[E' | H] | H]; [contradiction | now left | right].
      rewrite get_set_other by congruence. exact H.
Qed.

(** After a normal return the map sends each alias to its target. *)
Lemma setup_aliases_get_alias (self : SnapshotDatasets.t) (aliases : dict string)
  (alias target p d : string) :
  snd (setup_aliases self aliases) = Ok tt ->
  get alias aliases = Some target ->
  split_on "/" target = [p; d] ->
  exists dmap,
    dataset_map (fst (setup_aliases self aliases)) = Some dmap /\
    get alias dmap = Some (p, d).
Proof.
  unfold setup_aliases. intros Hok Hget Hsplit.
  destruct (alias_loop aliases (file_names (datasets_in_file self), named_columns self)
                       (keys aliases)) as [[dm' cols'] r] eqn:Eloop.
  simpl in Hok. subst r. exists dm'. split; [reflexivity |].
  pose proof (@alias_loop_target aliases alias target (keys aliases) Hget (fun a H => H)
                _ _ _ _ Eloop) as H.
  rewrite Hsplit in H. apply H. left. eapply get_in_keys; eauto.
Qed.

(** After any return the map holds the names of the file that are not
    alias names. *)
Lemma setup_aliases_get_file_name (self : SnapshotDatasets.t) (aliases : dict string)
  (P dset : string) (dsets : list string) :
  forallb (fun P' => negb (has_char "/" P')) (keys (datasets_in_file self)) = true ->
  get P (datasets_in_file self) = Some dsets ->
  In dset (dsets ++ ["GroupNr_all"; "GroupNr_bound"])%list ->
  mem (snap_name P dset) aliases = false ->
  exists dmap,
    dataset_map (fst (setup_aliases self aliases)) = Some dmap /\
    get (snap_name P dset) dmap = Some (P, dset).
Proof.
  intros Hslash HP Hd Halias. unfold setup_aliases.
  destruct (alias_loop aliases (file_names (datasets_in_file self), named_columns self)
                       (keys aliases)) as [[dm' cols'] r] eqn:Eloop.
  exists dm'. split; [reflexivity |].
  rewrite (@alias_loop_preserves aliases (keys aliases) (snap_name P dset))
    with (dm := file_names (datasets_in_file self)) (cols := named_columns self)
         (cols' := cols') (r := r); [| | exact Eloop].
  - now apply file_names_get with (dsets := dsets).
  - apply get_none_keys. unfold mem in Halias.
    destruct (get (snap_name P dset) aliases); [discriminate | reflexivity].
Qed.

(** X14: after a normal return of [setup_aliases(aliases)] the dataset
    map sends every alias to the group and dataset of its target. *)
Theorem setup_aliases_alias_target (self : SnapshotDatasets.t) (aliases : dict string)
  (alias target p d : string) :
  snd (setup_aliases self aliases) = Ok tt ->
  get alias aliases = Some target ->
  split_on "/" target = [p; d] ->
  exists dmap,
    dataset_map (fst (setup_aliases self aliases)) = Some dmap /\
    get alias dmap = Some (p, d).
Proof. apply setup_aliases_get_alias. Qed.

(** X15: after [setup_aliases(aliases)], [get_dataset] on the name of a
    dataset of the file that is not an alias name prints nothing and
    evaluates [data_dict[P][dset]]; on an alias, after a normal return,
    it evaluates [data_dict[p][d]] for the target [p/d]. *)
Theorem get_dataset_after_setup {A : Type} (self : SnapshotDatasets.t)
  (aliases : dict string) (data_dict : dict (dict A)) :
  (forall P dset dsets,
      forallb (fun P' => negb (has_char "/" P')) (keys (datasets_in_file self)) = true ->
      get P (datasets_in_file self) = Some dsets ->
      In dset (dsets ++ ["GroupNr_all"; "GroupNr_bound"])%list ->
      mem (snap_name P dset) aliases = false ->
      get_dataset (fst (setup_aliases self aliases)) (snap_name P dset) data_dict
      = (fst (setup_aliases self aliases), [],
         (group <- Dict.getitem data_dict P ;; Dict.getitem group dset)%outcome)) /\
  (forall alias target p d,
      snd (setup_aliases self aliases) = Ok tt ->
      get alias aliases = Some target ->
      split_on "/" target = [p; d] ->
      get_dataset (fst (setup_aliases self aliases)) alias data_dict
      = (fst (setup_aliases self aliases), [],
         (group <- Dict.getitem data_dict p ;; Dict.getitem group d)%outcome)).
Proof.
  split.
  - intros P dset dsets Hslash HP Hd Halias.
    destruct (setup_aliases_get_file_name self aliases P dset Hslash HP Hd Halias)
      as (dmap & Hmap & Hget).
    unfold get_dataset, Dict.getitem. now rewrite Hmap, Hget.
  - intros alias target p d Hok Hget Hsplit.
    destruct (setup_aliases_get_alias self aliases alias Hok Hget Hsplit)
      as (dmap & Hmap & Hg).
    unfold get_dataset, Dict.getitem. now rewrite Hmap, Hg.
Qed.

End AliasResults.

Section ColumnResults.

Import Dict SnapshotDatasets.
Local Open Scope string_scope.

Lemma alias_loop_columns (aliases : dict string) (K target : string) (c : dict nat)
  (todo : list string) :
  get K aliases = Some target ->
  (forall a, In a todo -> In a (keys aliases)) ->
  (forall K', In K' todo -> K' <> K ->
              nth 1 (split_on "/" K') EmptyString <> nth 1 (split_on "/" K) EmptyString) ->
  forall dm cols dm' cols',
    alias_loop aliases (dm, cols) todo = (dm', cols', Ok tt) ->
    get (nth 1 (split_on "/" target) EmptyString) cols = Some c ->
    (In K todo /\ get (nth 1 (split_on "/" K) EmptyString) cols = None)
    \/ get (nth 1 (split_on "/" K) EmptyString) cols = Some c ->
    get (nth 1 (split_on "/" K) EmptyString) cols' = Some c.
Proof.
  intros HK. set (x := nth 1 (split_on "/" K) EmptyString).
  set (y := nth 1 (split_on "/" target) EmptyString).
  induction todo as [| alias todo IH]; intros Hin Huniq dm cols dm' cols' E Hy Hor.
  - simpl in E. injection E as _ <-. destruct Hor as [[[] _] | H]; exact H.
  - rewrite alias_loop_cons in E.
    destruct (alias_step aliases (dm, cols) alias) as [[dm1 cols1] r1] eqn:Estep.
    pose proof (@alias_step_keeps_columns aliases dm dm1 cols cols1 alias y c r1 Estep Hy)
      as Hy1.
    destruct (in_keys_get alias aliases (Hin alias (or_introl eq_refl))) as (t & Hget).
    rewrite (alias_step_eq aliases dm cols alias Hget) in Estep.
    destruct ((count_char "/" alias =? 1)%nat && (count_char "/" t =? 1)%nat)%bool.
    2:{ injection Estep as _ _ <-. discriminate. }
    injection Estep as _ Hcols1 <-.
    eapply (IH (fun a Ha => Hin a (or_intror Ha))
               (fun K' HK' => Huniq K' (or_intror HK'))); [exact E | exact Hy1 |].
    destruct (string_dec alias K) as [-> | Hne].
    + right. rewrite HK in Hget. injection Hget as <-. fold x y in Hcols1.
      rewrite Hy in Hcols1. unfold mem in Hcols1.
      destruct Hor as [[_ Hx] | Hx]; rewrite Hx in Hcols1; subst cols1.
      * apply get_set_same.
      * exact Hx.
    + assert (Hx1 : get x cols1 = get x cols).
      { pose proof (Huniq alias (or_introl eq_refl) Hne) as Hxa. fold x in Hxa.
        subst cols1.
        destruct (get (nth 1 (split_on "/" t) EmptyString) cols); [| reflexivity].
        destruct (mem (nth 1 (split_on "/" alias) EmptyString) cols); [reflexivity |].
        apply get_set_other. congruence. }
      rewrite Hx1.
      destruct Hor as [[[E' | HKin] Hx] | Hx]; [contradiction | left; auto | right; auto].
Qed.

(** X16: after a normal return of [setup_aliases(aliases)], an alias
    [P/x] of a target [Q/y] whose dataset [y] has named columns, where
    [x] had none and no other alias is named [.../x], has the column
    table of [y]: [get_column_index(x, col)] is what
    [get_column_index(y, col)] was. *)
Theorem alias_shares_columns (self : SnapshotDatasets.t) (aliases : dict string)
  (alias target P x Q y : string) (c : dict nat) (col : string) :
  snd (setup_aliases self aliases) = Ok tt ->
  get alias aliases = Some target ->
  split_on "/" alias = [P; x] ->
  split_on "/" target = [Q; y] ->
  get y (named_columns self) = Some c ->
  get x (named_columns self) = None ->
  (forall K', In K' (keys aliases) -> K' <> alias ->
              nth 1 (split_on "/" K') EmptyString <> x) ->
  get_column_index (fst (setup_aliases self aliases)) x col
  = get_column_index self y col.
Proof.
  intros Hok Hget Hsa Hst Hy Hx Huniq. unfold setup_aliases in *.
  destruct (alias_loop aliases (file_names (datasets_in_file self), named_columns self)
                       (keys aliases)) as [[dm' cols'] r] eqn:Eloop.
  simpl in Hok. subst r.
  pose proof (@alias_loop_columns aliases alias target c (keys aliases) Hget
                (fun a H => H)) as H.
  rewrite Hsa, Hst in H. cbn [nth] in H.
  specialize (H Huniq _ _ _ _ Eloop Hy
                (or_introl (conj (get_in_keys _ _ Hget) Hx))).
  unfold get_column_index, Dict.getitem. cbn [fst named_columns].
  now rewrite H, Hy.
Qed.

(** X17: through an alias, [get_dataset_column] reads the dataset of the
    target with the column table of the target: it returns the column
    that the table of [y] gives for [col]. *)
Theorem get_dataset_column_alias {V : Type} (self : SnapshotDatasets.t)
  (aliases : dict string) (alias target Q y col : string) (c : dict nat) (j : nat)
  (data_dict : dict (dict (array2 V))) (group : dict (array2 V)) (arr : array2 V) :
  snd (setup_aliases self aliases) = Ok tt ->
  get alias aliases = Some target ->
  split_on "/" target = [Q; y] ->
  get y (named_columns self) = Some c ->
  get col c = Some j ->
  get Q data_dict = Some group ->
  get y group = Some arr ->
  get_dataset_column (fst (setup_aliases self aliases)) alias col data_dict
  = column arr j.
Proof.
  intros Hok Hget Hsplit Hy Hcol HQ Harr.
  destruct (setup_aliases_get_alias self aliases alias Hok Hget Hsplit)
    as (dmap & Hmap & Hg).
  unfold get_dataset_column, Dict.getitem.
  rewrite Hmap, Hg. cbn [bind fst snd].
  rewrite (setup_columns_kept self aliases y Hy). cbn [bind]. rewrite Hcol. cbn [bind].
  rewrite HQ. cbn [bind]. rewrite Harr. reflexivity.
Qed.

End ColumnResults.

Section InitResults.

Import Dict SnapshotDatasets.
Local Open Scope string_scope.

(** Entering the selected items of a dictionary into another one. *)
Lemma fold_set_select {A B : Type} (sel : string -> bool) (f : A -> B)
  (l : dict A) (k : string) :
  NoDup (keys l) ->
  forall d : dict B,
    get k (fold_left (fun acc g => if sel (fst g) then set (fst g) (f (snd g)) acc else acc)
                     l d)
    = match get k l with
      | Some v => if sel k then Some (f v) else get k d
      | None => get k d
      end.
Proof.
  induction l as [| [k1 v1] l IH]; intros Hnd d; [reflexivity |].
  inversion Hnd as [| ? ? Hk1 Hnd']; subst.
  cbn [fold_left fst snd get]. rewrite (IH Hnd').
  destruct (String.eqb_spec k k1) as [-> | Hne].
  - destruct (get k1 l) as [v |] eqn:E; [apply get_in_keys in E; contradiction |].
    destruct (sel k1); [apply get_set_same | reflexivity].
  - destruct (sel k1); [| reflexivity].
    rewrite get_set_other by exact Hne. reflexivity.
Qed.

Lemma fold_append_id {A : Type} (l acc : list A) :
  fold_left (fun r x => (r ++ [x])%list) l acc = (acc ++ l)%list.
Proof.
  revert acc. induction l as [| x l IH]; intros acc; simpl.
  - now rewrite app_nil_r.
  - rewrite IH, <- app_assoc. reflexivity.
Qed.

(** X18: [__init__] enters in [datasets_in_file] exactly the groups of
    the file whose name starts with [PartType], each with its members;
    the object has no dataset map yet, and [get_dataset] on it raises
    [AttributeError]. *)
Theorem init_datasets_in_file {A : Type} (f : file_handle) (self : SnapshotDatasets.t) :
  NoDup (keys (file_groups f)) ->
  init f = Ok self ->
  (forall g, get g (datasets_in_file self)
             = if String.prefix "PartType" g then get g (file_groups f) else None) /\
  dataset_map self = None /\
  forall name (data_dict : dict (dict A)),
    get_dataset self name data_dict = (self, [], Raise AttributeError).
Proof.
  intros Hnd Hinit. unfold init in Hinit.
  destruct (file_named_columns f) as [cols |]; [| discriminate].
  injection Hinit as <-. split; [| split; reflexivity].
  intros g. cbn [datasets_in_file].
  rewrite (fold_set_select (String.prefix "PartType")
             (fun members => fold_left (fun l dset => (l ++ [dset])%list) members [])
             (file_groups f) g Hnd).
  destruct (get g (file_groups f)) as [members |]; [| now destruct (String.prefix _ g)].
  now rewrite fold_append_id.
Qed.

Lemma column_indices_other (names : list string) (n : string) (i : nat) (d : dict nat) :
  ~ In n names -> get n (column_indices i names d) = get n d.
Proof.
  revert i d. induction names as [| n0 names IH]; intros i d Hn; simpl; [reflexivity |].
  rewrite IH by (intros H; apply Hn; now right).
  apply get_set_other. intros ->. apply Hn. now left.
Qed.

Lemma column_indices_get (names : list string) (n : string) (i j : nat) (d : dict nat) :
  NoDup names -> nth_error names j = Some n ->
  get n (column_indices i names d) = Some (i + j)%nat.
Proof.
  revert i j d. induction names as [| n0 names IH]; intros i j d Hnd Hj.
  - destruct j; discriminate.
  - inversion Hnd as [| ? ? Hn0 Hnd']; subst. destruct j as [| j]; simpl in *.
    + injection Hj as ->. rewrite column_indices_other by exact Hn0.
      rewrite get_set_same. f_equal. lia.
    + rewrite (IH (S i) j _ Hnd' Hj). f_equal. lia.
Qed.

(** X19: for a file whose table of named columns lists, without
    repetition, the columns of a dataset, [__init__] succeeds and
    [get_column_index(dset, col)] is the position of [col] in that list;
    a dataset or a column that the table does not hold raises
    [KeyError]. *)
Theorem get_column_index_position (f : file_handle) (cols : dict (list string)) :
  NoDup (keys cols) ->
  file_named_columns f = Some cols ->
  exists self,
    init f = Ok self /\
    (forall dset names col j,
        get dset cols = Some names -> NoDup names -> nth_error names j = Some col ->
        get_column_index self dset col = Ok j) /\
    (forall dset col, get dset cols = None ->
                      get_column_index self dset col = Raise (KeyError dset)) /\
    (forall dset names col,
        get dset cols = Some names -> ~ In col names ->
        get_column_index self dset col = Raise (KeyError col)).
Proof.
  intros Hnd Hcols. unfold init. rewrite Hcols. eexists. split; [reflexivity |].
  assert (Hget : forall dset,
             get dset (fold_left (fun acc nc => set (fst nc) (column_indices 0 (snd nc) empty) acc)
                                 cols empty)
             = match get dset cols with
               | Some names => Some (column_indices 0 names empty)
               | None => None
               end).
  { intros dset.
    pose proof (fold_set_select (fun _ => true) (fun names => column_indices 0 names empty)
                  cols dset Hnd (@empty (dict nat))) as H.
    cbv beta in H. rewrite H. reflexivity. }
  unfold get_column_index, Dict.getitem. cbn [named_columns].
  split; [| split].
  - intros dset names col j Hd Hn Hj. rewrite Hget, Hd. cbn [bind].
    now rewrite (@column_indices_get names col 0 j empty Hn Hj).
  - intros dset col Hd. now rewrite Hget, Hd.
  - intros dset names col Hd Hn. rewrite Hget, Hd. cbn [bind].
    now rewrite (@column_indices_other names col 0 empty Hn).
Qed.

End InitResults.

(** * The further results on the scenarios *)

(** X1 on the three particles distributed over two processes. *)
Lemma cell_count_total_witness :
  exists m,
    SharedMesh.init scenario_pos_two 2 = Ok m /\
    (Forall (fun n => 0 <= n)%Z (SharedMesh.cell_count m) /\
     fold_right Z.add 0%Z (SharedMesh.cell_count m)
     = Z.of_nat (length (full scenario_pos_two)) /\
     length (SharedMesh.sort_idx m) = length (full scenario_pos_two) /\
     forall c : nat, (c < Z.to_nat (2 ^ 3))%nat ->
       (0 <= nth c (SharedMesh.cell_offset m) 0 /\
        nth c (SharedMesh.cell_offset m) 0 + nth c (SharedMesh.cell_count m) 0
        <= Z.of_nat (length (SharedMesh.sort_idx m)))%Z).
Proof.
  eexists. split; [vm_compute; reflexivity |].
  apply cell_count_total with (pos := scenario_pos_two) (R := 2%Z).
  vm_compute. reflexivity.
Defined.

(** X2 on the three particles distributed over two processes. *)
Lemma bounding_box_tight_witness :
  exists m,
    SharedMesh.init scenario_pos_two 2 = Ok m /\
    ((forall p, In p (full scenario_pos_two) -> forall d : axis,
         vget d (SharedMesh.pos_min m) <= vget d p /\
         vget d p <= vget d (SharedMesh.pos_max m)) /\
     (forall d : axis, exists p,
         In p (full scenario_pos_two) /\ vget d p = vget d (SharedMesh.pos_min m)) /\
     (forall d : axis, exists p,
         In p (full scenario_pos_two) /\ vget d p = vget d (SharedMesh.pos_max m))).
Proof.
  eexists. split; [vm_compute; reflexivity |].
  apply bounding_box_tight with (R := 2%Z). vm_compute. reflexivity.
Defined.

(** X3 on the three particles distributed over two processes. *)
Lemma init_needs_cells_and_particles_witness :
  exists m,
    SharedMesh.init scenario_pos_two 2 = Ok m /\
    ((1 <= 2)%Z /\ parts scenario_pos_two <> [] /\
     Forall (fun part => part <> []) (parts scenario_pos_two)).
Proof.
  eexists. split; [vm_compute; reflexivity |].
  eapply init_needs_cells_and_particles. vm_compute. reflexivity.
Defined.

(** X4 for the box (0,0,0)-(1,1,1). *)
Lemma query_exact_cells_witness :
  exists m lo hi,
    SharedMesh.init scenario_pos 2 = Ok m /\
    (2 ^ 3 <= 2 ^ 31)%Z /\
    mesh_coord m (pt 0 0 0) = Ok lo /\
    mesh_coord m (pt 1 1 1) = Ok hi /\
    exists res, SharedMesh.query m (pt 0 0 0) (pt 1 1 1) = Ok res /\ NoDup res /\
      forall x : nat, In x res <->
        exists p c, nth_error (full scenario_pos) x = Some p /\ mesh_coord m p = Ok c /\
                    between lo hi c.
Proof.
  eexists. eexists. eexists.
  split; [vm_compute; reflexivity |].
  split; [vm_compute; discriminate |].
  split; [vm_compute; reflexivity |].
  split; [vm_compute; reflexivity |].
  apply query_exact_cells with (pos := scenario_pos) (R := 2%Z).
  - vm_compute. reflexivity.
  - vm_compute. discriminate.
  - vm_compute. reflexivity.
  - vm_compute. reflexivity.
Defined.


(** X6 for the corners (1.5,1.5,1.5) and (0,0,0), in this order. *)
Lemma query_inverted_box_empty_witness :
  mesh_coord scenario_mesh (pt 1.5 1.5 1.5) = Ok (V3 1 1 1)%Z /\
  mesh_coord scenario_mesh (pt 0 0 0) = Ok (V3 0 0 0)%Z /\
  (vget AxX (V3 0 0 0) < vget AxX (V3 1 1 1))%Z /\
  SharedMesh.query scenario_mesh (pt 1.5 1.5 1.5) (pt 0 0 0) = Ok [].
Proof.
  split; [vm_compute; reflexivity |].
  split; [vm_compute; reflexivity |].
  split; [vm_compute; reflexivity |].
  apply query_inverted_box_empty with (lo := (V3 1 1 1)%Z) (hi := (V3 0 0 0)%Z) (d := AxX).
  - vm_compute. reflexivity.
  - vm_compute. reflexivity.
  - vm_compute. reflexivity.
Defined.

(** X7 on the three particles distributed over two processes. *)
Lemma query_whole_box_witness :
  exists m,
    SharedMesh.init scenario_pos_two 2 = Ok m /\
    (2 ^ 3 <= 2 ^ 31)%Z /\
    exists res,
      SharedMesh.query m (SharedMesh.pos_min m) (SharedMesh.pos_max m) = Ok res /\
      Permutation res (seq 0 (length (full scenario_pos_two))).
Proof.
  eexists. split; [vm_compute; reflexivity |].
  split; [vm_compute; discriminate |].
  apply query_whole_box with (R := 2%Z).
  - vm_compute. reflexivity.
  - vm_compute. discriminate.
Defined.

(** X8 for the sphere of radius 1.5 about (0.25,0.25,0.25). *)
Lemma query_radius_filters_query_witness :
  exists m qmin qmax res,
    SharedMesh.init scenario_pos 2 = Ok m /\
    corners (pt 0.25 0.25 0.25) 1.5 qmin qmax /\
    SharedMesh.query m qmin qmax = Ok res /\
    SharedMesh.query_radius m (pt 0.25 0.25 0.25) 1.5 scenario_pos
    = Ok (filter (fun i => match nth_error (full scenario_pos) i with
                           | Some p => kept (pt 0.25 0.25 0.25) 1.5 p
                           | None => false
                           end) res).
Proof.
  eexists. eexists. eexists. eexists.
  split; [vm_compute; reflexivity |].
  split; [split; vm_compute; reflexivity |].
  split; [vm_compute; reflexivity |].
  eapply query_radius_filters_query with (R := 2%Z).
  - vm_compute. reflexivity.
  - split; vm_compute; reflexivity.
  - vm_compute. reflexivity.
Defined.

(** X9 for the three particles on one process and on two. *)
Lemma mesh_independent_of_distribution_witness :
  exists m m',
    full scenario_pos = full scenario_pos_two /\
    SharedMesh.init scenario_pos 2 = Ok m /\
    SharedMesh.init scenario_pos_two 2 = Ok m' /\
    (SharedMesh.pos_min m = SharedMesh.pos_min m' /\
     SharedMesh.pos_max m = SharedMesh.pos_max m' /\
     SharedMesh.cell_size m = SharedMesh.cell_size m' /\
     SharedMesh.cell_count m = SharedMesh.cell_count m' /\
     SharedMesh.cell_offset m = SharedMesh.cell_offset m').
Proof.
  eexists. eexists.
  split; [reflexivity |].
  split; [vm_compute; reflexivity |].
  split; [vm_compute; reflexivity |].
  apply mesh_independent_of_distribution
    with (pos := scenario_pos) (pos' := scenario_pos_two) (R := 2%Z).
  - reflexivity.
  - vm_compute. reflexivity.
  - vm_compute. reflexivity.
Defined.

(** X10 for the three particles on one process and on two. *)
Lemma query_independent_of_distribution_witness :
  exists m m' res res',
    full scenario_pos = full scenario_pos_two /\
    SharedMesh.init scenario_pos 2 = Ok m /\
    SharedMesh.init scenario_pos_two 2 = Ok m' /\
    (2 ^ 3 <= 2 ^ 31)%Z /\
    SharedMesh.query m (pt 0 0 0) (pt 1 1 1) = Ok res /\
    SharedMesh.query m' (pt 0 0 0) (pt 1 1 1) = Ok res' /\
    Permutation res res'.
Proof.
  eexists. eexists. eexists. eexists.
  split; [reflexivity |].
  split; [vm_compute; reflexivity |].
  split; [vm_compute; reflexivity |].
  split; [vm_compute; discriminate |].
  split; [vm_compute; reflexivity |].
  split; [vm_compute; reflexivity |].
  eapply query_independent_of_distribution
    with (pos := scenario_pos) (pos' := scenario_pos_two) (R := 2%Z)
         (qmin := pt 0 0 0) (qmax := pt 1 1 1).
  - reflexivity.
  - vm_compute. reflexivity.
  - vm_compute. reflexivity.
  - vm_compute. discriminate.
  - vm_compute. reflexivity.
  - vm_compute. reflexivity.
Defined.

(** X11 for [PartType0/Masses] and for a name with two separators. *)
Lemma snap_name_round_trip_witness :
  SnapshotDatasets.has_char "/" "PartType0" = false /\
  SnapshotDatasets.has_char "/" "Masses" = false /\
  SnapshotDatasets.unpack2
    (SnapshotDatasets.split_on "/" (SnapshotDatasets.snap_name "PartType0" "Masses"))
  = Ok ("PartType0", "Masses")%string /\
  String.concat "/" (SnapshotDatasets.split_on "/" "a/b/c") = "a/b/c"%string /\
  length (SnapshotDatasets.split_on "/" "a/b/c")
  = S (SnapshotDatasets.count_char "/" "a/b/c").
Proof.
  split; [reflexivity |]. split; [reflexivity |].
  destruct (snap_name_round_trip "PartType0" "Masses" "a/b/c") as (H1 & H2 & H3).
  split; [apply H1; reflexivity |]. split; [exact H2 | exact H3].
Defined.

(** X13 for the scenario file and the alias of its dataset with columns. *)
Lemma setup_aliases_keeps_columns_witness :
  Dict.get "ElementMassFractions"%string (SnapshotDatasets.named_columns scenario_loaded)
  = Some [("Hydrogen", 0); ("Helium", 1); ("Carbon", 2)]%string%nat /\
  SnapshotDatasets.datasets_in_file
    (fst (SnapshotDatasets.setup_aliases scenario_loaded scenario_column_aliases))
  = SnapshotDatasets.datasets_in_file scenario_loaded /\
  Dict.get "ElementMassFractions"%string
    (SnapshotDatasets.named_columns
       (fst (SnapshotDatasets.setup_aliases scenario_loaded scenario_column_aliases)))
  = Some [("Hydrogen", 0); ("Helium", 1); ("Carbon", 2)]%string%nat.
Proof.
  split; [reflexivity |].
  destruct (setup_aliases_keeps_columns scenario_loaded scenario_column_aliases) as [H1 H2].
  split; [exact H1 |]. apply H2. reflexivity.
Defined.

(** X14 for the alias [PartType0/Abundances]. *)
Lemma setup_aliases_alias_target_witness :
  snd (SnapshotDatasets.setup_aliases scenario_loaded scenario_column_aliases) = Ok tt /\
  Dict.get "PartType0/Abundances"%string scenario_column_aliases
  = Some "PartType0/ElementMassFractions"%string /\
  SnapshotDatasets.split_on "/" "PartType0/ElementMassFractions"
  = ["PartType0"; "ElementMassFractions"]%string /\
  exists dmap,
    SnapshotDatasets.dataset_map
      (fst (SnapshotDatasets.setup_aliases scenario_loaded scenario_column_aliases))
    = Some dmap /\
    Dict.get "PartType0/Abundances"%string dmap
    = Some ("PartType0", "ElementMassFractions")%string.
Proof.
  split; [reflexivity |]. split; [reflexivity |]. split; [reflexivity |].
  apply setup_aliases_alias_target with (target := "PartType0/ElementMassFractions"%string);
    reflexivity.
Defined.

(** X15 for a dataset of the file and for the alias. *)
Lemma get_dataset_after_setup_witness :
  let self' := fst (SnapshotDatasets.setup_aliases scenario_loaded scenario_column_aliases) in
  SnapshotDatasets.get_dataset self'
    (SnapshotDatasets.snap_name "PartType4" "Masses") scenario_columns
  = (self', [],
     (group <- Dict.getitem scenario_columns "PartType4"%string ;;
      Dict.getitem group "Masses"%string)%outcome) /\
  SnapshotDatasets.get_dataset self' "PartType0/Abundances"%string scenario_columns
  = (self', [],
     (group <- Dict.getitem scenario_columns "PartType0"%string ;;
      Dict.getitem group "ElementMassFractions"%string)%outcome).
Proof.
  cbv zeta.
  destruct (get_dataset_after_setup scenario_loaded scenario_column_aliases scenario_columns)
    as [H1 H2].
  split.
  - apply H1 with (dsets := ["Masses"%string]).
    + reflexivity.
    + reflexivity.
    + simpl. auto.
    + reflexivity.
  - apply H2 with (target := "PartType0/ElementMassFractions"%string).
    + reflexivity.
    + reflexivity.
    + reflexivity.
Defined.

(** X16 for the alias [PartType0/Abundances] and the column [Carbon]. *)
Lemma alias_shares_columns_witness :
  SnapshotDatasets.get_column_index
    (fst (SnapshotDatasets.setup_aliases scenario_loaded scenario_column_aliases))
    "Abundances" "Carbon"
  = SnapshotDatasets.get_column_index scenario_loaded "ElementMassFractions" "Carbon".
Proof.
  apply alias_shares_columns
    with (alias := "PartType0/Abundances"%string)
         (target := "PartType0/ElementMassFractions"%string)
         (P := "PartType0"%string) (Q := "PartType0"%string)
         (c := [("Hydrogen", 0); ("Helium", 1); ("Carbon", 2)]%string%nat).
  - reflexivity.
  - reflexivity.
  - reflexivity.
  - reflexivity.
  - reflexivity.
  - reflexivity.
  - intros K' [<- | []] Hne. contradiction.
Defined.

(** X17 for the column [Helium] read through the alias. *)
Lemma get_dataset_column_alias_witness :
  SnapshotDatasets.get_dataset_column
    (fst (SnapshotDatasets.setup_aliases scenario_loaded scenario_column_aliases))
    "PartType0/Abundances" "Helium" scenario_columns
  = SnapshotDatasets.column
      {| SnapshotDatasets.ncols := 3;
         SnapshotDatasets.rows := [[70; 28; 2]; [75; 24; 1]]%nat |} 1.
Proof.
  apply get_dataset_column_alias
    with (target := "PartType0/ElementMassFractions"%string)
         (Q := "PartType0"%string) (y := "ElementMassFractions"%string)
         (c := [("Hydrogen", 0); ("Helium", 1); ("Carbon", 2)]%string%nat)
         (group := [("ElementMassFractions"%string,
                     {| SnapshotDatasets.ncols := 3;
                        SnapshotDatasets.rows := [[70; 28; 2]; [75; 24; 1]]%nat |})]);
    reflexivity.
Defined.

(** X18 for the scenario file. *)
Lemma init_datasets_in_file_witness :
  NoDup (Dict.keys (SnapshotDatasets.file_groups scenario_file)) /\
  SnapshotDatasets.init scenario_file = Ok scenario_loaded /\
  (forall g, Dict.get g (SnapshotDatasets.datasets_in_file scenario_loaded)
             = if String.prefix "PartType" g
               then Dict.get g (SnapshotDatasets.file_groups scenario_file) else None) /\
  SnapshotDatasets.dataset_map scenario_loaded = None /\
  forall name (data_dict : Dict.dict (Dict.dict nat)),
    SnapshotDatasets.get_dataset scenario_loaded name data_dict
    = (scenario_loaded, [], Raise AttributeError).
Proof.
  assert (Hnd : NoDup (Dict.keys (SnapshotDatasets.file_groups scenario_file))).
  { repeat constructor; simpl; intuition discriminate. }
  split; [exact Hnd |]. split; [reflexivity |].
  apply init_datasets_in_file with (f := scenario_file); [exact Hnd | reflexivity].
Defined.

(** X19 for the column [Carbon] of the scenario file. *)
Lemma get_column_index_position_witness :
  exists self,
    SnapshotDatasets.init scenario_file = Ok self /\
    SnapshotDatasets.get_column_index self "ElementMassFractions" "Carbon" = Ok 2%nat.
Proof.
  destruct (@get_column_index_position scenario_file
              [("ElementMassFractions", ["Hydrogen"; "Helium"; "Carbon"])]%string)
    as (self & Hinit & Hpos & _).
  - repeat constructor; simpl; intuition discriminate.
  - reflexivity.
  - exists self. split; [exact Hinit |].
    apply Hpos with (names := ["Hydrogen"; "Helium"; "Carbon"]%string).
    + reflexivity.
    + repeat constructor; simpl; intuition discriminate.
    + reflexivity.
Defined.
